(** * Radio telemetry link: transmitter (TX.py) and receiver (RX.py)

    A shallow embedding of the two MicroPython programs of the repository:
    the sampling and transmission pass of [TX.py] ([medir_rssi],
    [transmitir_archivo], one trigger of [main]) and the reception loop of
    [RX.py] ([mostrar_en_oled], [receiver_loop]).

    The hardware collaborators (WiFi interface, NRF24L01 driver, SSD1306
    display) are oracles over the interaction history; everything the
    programs do to the outside world is recorded as a trace of events. *)

From Stdlib Require Import ZArith QArith List String Ascii Lia.
From Stdlib.Strings Require Import Byte.
From Stdlib Require Import Decimal DecimalString DecimalPos DecimalZ.
From Stdlib Require Import Floats.
From stdpp Require Import base option list strings gmap.

Local Open Scope Z_scope.

(** ** Python exceptions and results *)

Inductive exn : Type :=
| ValueError (msg : string)
| OSError (msg : string)
| StructError (msg : string)
| ZeroDivisionError (msg : string).

(** [str(e)], as interpolated by [print(f"...{e}")]. *)
Definition exn_msg (e : exn) : string :=
  match e with
  | ValueError m | OSError m | StructError m | ZeroDivisionError m => m
  end.

Inductive res (A : Type) : Type :=
| Ok (a : A)
| Raise (e : exn).
Arguments Ok {A} a.
Arguments Raise {A} e.

(** ** The Python string builtins the transmitter uses *)

Module Py.

(** Characters removed by [str.strip()] and skipped by [int()]. *)
Definition is_space (c : ascii) : bool :=
  match c with
  | " " | "009" | "010" | "011" | "012" | "013" => true
  | _ => false
  end%char.

Fixpoint lstrip (s : string) : string :=
  match s with
  | String c r => if is_space c then lstrip r else s
  | EmptyString => EmptyString
  end.

(** Drops trailing whitespace: a character is kept when it is not a space
    or when something is kept after it. *)
Fixpoint rstrip (s : string) : string :=
  match s with
  | EmptyString => EmptyString
  | String c r =>
      match rstrip r with
      | EmptyString => if is_space c then EmptyString else String c EmptyString
      | r' => String c r'
      end
  end.

Definition strip (s : string) : string := rstrip (lstrip s).

(** [s.split(sep)] for a one-character separator: always at least one
    field. *)
Fixpoint split (sep : ascii) (s : string) : list string :=
  match s with
  | EmptyString => [EmptyString]
  | String c r =>
      if Ascii.eqb c sep then EmptyString :: split sep r
      else match split sep r with
           | f :: fs => String c f :: fs
           | [] => [String c EmptyString]
           end
  end.

(** Iterating a text file: the lines, each keeping its newline; a last
    line without newline is yielded as it is. *)
Fixpoint readlines (s : string) : list string :=
  match s with
  | EmptyString => []
  | String c r =>
      if Ascii.eqb c "010" then String c EmptyString :: readlines r
      else match readlines r with
           | l :: ls => String c l :: ls
           | [] => [String c EmptyString]
           end
  end.

Definition is_digit (c : ascii) : bool := Ascii.leb "0" c && Ascii.leb c "9".

(** The digits of a literal without their grouping: an underscore is
    allowed between two digits and nowhere else, as in [int("1_000")];
    [prev] says whether the character before was a digit.  [None] when the
    text is empty or holds anything else. *)
Fixpoint digits_grouped (prev : bool) (s : string) : option string :=
  match s with
  | EmptyString => if prev then Some EmptyString else None
  | String c r =>
      if is_digit c then option_map (String c) (digits_grouped true r)
      else if Ascii.eqb c "_" then
             (if prev then digits_grouped false r else None)
      else None
  end.

Definition digits_value (s : string) : option uint :=
  match digits_grouped false s with
  | Some body => NilZero.uint_of_string body
  | None => None
  end.

(** [int(s)] in base 10: surrounding whitespace is ignored, one optional
    sign, then at least one decimal digit, the digits possibly grouped by
    single underscores.  [None] stands for [ValueError]. *)
Definition int (s : string) : option Z :=
  match strip s with
  | EmptyString => None
  | String c r =>
      if Ascii.eqb c "-" then
        option_map (fun u => - Z.of_uint u) (digits_value r)
      else if Ascii.eqb c "+" then
        option_map Z.of_uint (digits_value r)
      else option_map Z.of_uint (digits_value (String c r))
  end.


(** [str(z)], as interpolated by an f-string. *)
Definition str (z : Z) : string := NilZero.string_of_int (Z.to_int z).

(** Every character of [s] satisfies [P]. *)
Fixpoint all_chars (P : ascii -> bool) (s : string) : bool :=
  match s with
  | EmptyString => true
  | String c r => P c && all_chars P r
  end.

(** The characters [str] produces: a minus sign and the decimal digits. *)
Definition is_numchar (c : ascii) : bool :=
  Ascii.eqb c "-" || (Ascii.leb "0" c && Ascii.leb c "9").

End Py.

(** ** [struct.pack("ii", a, b)] and [struct.unpack("ii", buf)]

    Two native 4-byte signed integers.  Both endpoints run the same port
    (RP2, little-endian), so the native layout is two's complement, least
    significant byte first, no padding between the fields. *)

Module Struct.

Definition INT_MIN : Z := - 2 ^ 31.
Definition INT_MAX : Z := 2 ^ 31 - 1.

Definition fits_i (z : Z) : bool := (INT_MIN <=? z) && (z <=? INT_MAX).

Definition byte_of_Z (z : Z) : byte :=
  match Byte.of_N (Z.to_N (Z.land z 255)) with
  | Some b => b
  | None => x00
  end.

Definition Z_of_byte (b : byte) : Z := Z.of_N (Byte.to_N b).

Definition pack_i (z : Z) : list byte :=
  [byte_of_Z z; byte_of_Z (Z.shiftr z 8);
   byte_of_Z (Z.shiftr z 16); byte_of_Z (Z.shiftr z 24)].

Definition unpack_i (b0 b1 b2 b3 : byte) : Z :=
  let u := Z.lor (Z_of_byte b0)
          (Z.lor (Z.shiftl (Z_of_byte b1) 8)
          (Z.lor (Z.shiftl (Z_of_byte b2) 16)
                 (Z.shiftl (Z_of_byte b3) 24))) in
  if u <? 2 ^ 31 then u else u - 2 ^ 32.

(** A value outside the range of a C int is refused with an exception that
    is not a [ValueError] ([struct.error], [OverflowError]); a port that
    would silently truncate instead agrees with this on every value that
    fits, which is where the properties below use it. *)
Definition pack_ii (a b : Z) : res (list byte) :=
  if fits_i a && fits_i b then Ok (pack_i a ++ pack_i b)
  else Raise (StructError "argument out of range").

Definition unpack_ii (buf : list byte) : res (Z * Z) :=
  match buf with
  | [a0; a1; a2; a3; b0; b1; b2; b3] =>
      Ok (unpack_i a0 a1 a2 a3, unpack_i b0 b1 b2 b3)
  | _ => Raise (StructError "buffer size mismatch")
  end.

End Struct.

(** ** The transmitter, [TX.py] *)

Module TX.

(** What the transmitter does to the outside world, in order. *)
Inductive event : Type :=
| Print (s : string)
| PrintAvg (avg_rssi : float)        (* "Promedio RSSI: {avg_rssi:.2f} dBm" *)
| PrintStd (std_dev_rssi : float)    (* "Desviación estándar: {std_dev_rssi:.2f} dBm" *)
| Rssi (r : option Z)                (* the WiFi query; [None]: not connected *)
| Send (payload : list byte) (fault : option string)   (* [nrf.send(payload)] *)
| Sleep (ms : Z).

(** The collaborators answer as a function of the interaction so far. *)
Record env : Type := {
  (** [wifi.isconnected()] and, when connected, [wifi.status('rssi')] *)
  wifi : list event -> option Z;
  (** [nrf.send(payload)]: [Some msg] when the driver raises [OSError(msg)] *)
  nrf_send : list event -> list byte -> option string
}.

Record world : Type := {
  fs : gmap string string;     (* the files, by path *)
  trace : list event
}.

Definition M (A : Type) : Type := world -> res A * world.

Definition ret {A} (a : A) : M A := fun w => (Ok a, w).
Definition raise {A} (e : exn) : M A := fun w => (Raise e, w).
Definition bind {A B} (m : M A) (k : A -> M B) : M B :=
  fun w => match m w with
           | (Ok a, w') => k a w'
           | (Raise e, w') => (Raise e, w')
           end.
(** [try: m  except Exception as e: h e] *)
Definition try_except {A} (m : M A) (h : exn -> M A) : M A :=
  fun w => match m w with
           | (Ok a, w') => (Ok a, w')
           | (Raise e, w') => h e w'
           end.
(** [try: m  except ValueError: h]; every other exception goes through. *)
Definition try_except_ValueError {A} (m : M A) (h : M A) : M A :=
  fun w => match m w with
           | (Raise (ValueError _), w') => h w'
           | r => r
           end.

Notation "x <- m ;; k" := (bind m (fun x => k))
  (at level 100, m at next level, right associativity).
Notation "m ;;; k" := (bind m (fun _ => k))
  (at level 100, right associativity).

Definition emit (e : event) : M unit :=
  fun w => (Ok tt, {| fs := fs w; trace := trace w ++ [e] |}).
Definition print (s : string) : M unit := emit (Print s).
Definition sleep_ms (ms : Z) : M unit := emit (Sleep ms).

Fixpoint for_each {A} (l : list A) (body : A -> M unit) : M unit :=
  match l with
  | [] => ret tt
  | x :: l' => body x ;;; for_each l' body
  end.

(** Python's [int(s)] and [struct.pack("ii", ..)] inside the monad. *)
Definition int_ (s : string) : M Z :=
  match Py.int s with
  | Some z => ret z
  | None => raise (ValueError ("invalid literal for int(): " +:+ s))
  end.
Definition lift {A} (r : res A) : M A := fun w => (r, w).

(** [open(path, "w")] creates or truncates; [log.write(s)] appends to what
    has been written since. *)
Definition open_w (path : string) : M unit :=
  fun w => (Ok tt, {| fs := <[path := EmptyString]> (fs w); trace := trace w |}).
Definition file_write (path s : string) : M unit :=
  fun w => (Ok tt, {| fs := alter (fun c => c +:+ s) path (fs w); trace := trace w |}).
(** [open(path, "r")] and the iteration over the lines; a missing file
    raises [OSError]. *)
Definition open_r_lines (path : string) : M (list string) :=
  fun w => match fs w !! path with
           | Some c => (Ok (Py.readlines c), w)
           | None => (Raise (OSError "[Errno 2] ENOENT"), w)
           end.

(** *** Statistics of the readings (TX.py, lines 100 and 102) *)

(** An integer as a float (binary64): the nearest float, ties to even;
    exact up to 2^53 in absolute value.  (Python refuses an integer beyond
    the largest float, about 1.8e308, which no sum of readings that fit a
    C int comes near.) *)
Definition float_of_Z (z : Z) : float :=
  SF2Prim (binary_normalize prec emax z 0 false).

(** [sum(l)] over Python integers. *)
Definition sum_Z (l : list Z) : Z := fold_left Z.add l 0.
(** [sum(l)] over floats: starts from the integer 0, adds left to right. *)
Definition sum_float (l : list float) : float :=
  fold_left PrimFloat.add l 0%float.

(** [sum(rssi_values) / len(rssi_values)] *)
Definition avg_rssi (rssi_values : list Z) : float :=
  PrimFloat.div (float_of_Z (sum_Z rssi_values))
                (float_of_Z (Z.of_nat (length rssi_values))).

(** [math.sqrt(sum([(x - avg_rssi) ** 2 for x in rssi_values]) / len(rssi_values))] *)
Definition std_dev_rssi (rssi_values : list Z) : float :=
  let avg := avg_rssi rssi_values in
  PrimFloat.sqrt
    (PrimFloat.div
       (sum_float (map (fun x => let d := PrimFloat.sub (float_of_Z x) avg in
                                 PrimFloat.mul d d) rssi_values))
       (float_of_Z (Z.of_nat (length rssi_values)))).

Section Program.
Context (E : env).

(** TX.py, lines 91-94. *)
Definition read_rssi : M Z :=
  fun w => let r := wifi E (trace w) in
           (Ok (default (-100) r), {| fs := fs w; trace := trace w ++ [Rssi r] |}).

(** The body of [for i in range(..)], lines 90-97, for the [k] draws that
    remain, [i] being the index of the next one. *)
Fixpoint sample_loop (k : nat) (i : Z) (rssi_values : list Z) : M (list Z) :=
  match k with
  | O => ret rssi_values
  | S k' =>
      rssi <- read_rssi ;;
      print ("Medición " +:+ Py.str (i + 1) +:+ ": RSSI = " +:+ Py.str rssi +:+ " dBm") ;;;
      sleep_ms 100 ;;;
      sample_loop k' (i + 1) (rssi_values ++ [rssi])
  end.

(** [enumerate(rssi_values)] *)
Definition enumerate {A} (l : list A) : list (Z * A) :=
  imap (fun i x => (Z.of_nat i, x)) l.

Definition log_line (iv : Z * Z) : string :=
  Py.str (fst iv) +:+ "," +:+ Py.str (snd iv) +:+ "
".

(** [medir_rssi] with the number of draws as a parameter; the source fixes
    it to 10.  With no reading at all, the mean divides by zero. *)
Definition medir_rssi_n (n : nat) : M unit :=
  rssi_values <- sample_loop n 0 [] ;;
  (if decide (rssi_values = []) then raise (ZeroDivisionError "divide by zero")
   else ret tt) ;;;
  emit (PrintAvg (avg_rssi rssi_values)) ;;;
  emit (PrintStd (std_dev_rssi rssi_values)) ;;;
  open_w "RSSI_Medicion.txt" ;;;
  for_each (enumerate rssi_values)
           (fun iv => file_write "RSSI_Medicion.txt" (log_line iv)).

Definition medir_rssi : M unit := medir_rssi_n 10.

(** [nrf.send(payload)]: the call is recorded with its outcome. *)
Definition send (payload : list byte) : M unit :=
  fun w => let fault := nrf_send E (trace w) payload in
           let w' := {| fs := fs w; trace := trace w ++ [Send payload fault] |} in
           match fault with
           | None => (Ok tt, w')
           | Some msg => (Raise (OSError msg), w')
           end.

(** One line of the file, TX.py lines 124-137. *)
Definition transmitir_linea (line : string) : M unit :=
  let partes := Py.split "," (Py.strip line) in
  if decide (length partes = 2%nat) then
    try_except_ValueError
      (idx <- int_ (default EmptyString (partes !! 0%nat)) ;;
       rssi <- int_ (default EmptyString (partes !! 1%nat)) ;;
       payload <- lift (Struct.pack_ii idx rssi) ;;
       send payload ;;;
       print ("Enviado RSSI: " +:+ Py.str rssi +:+ " dBm") ;;;
       sleep_ms 100)
      (print ("Línea malformada: " +:+ line))
  else ret tt.

Definition transmitir_archivo (file_path : string) : M unit :=
  try_except
    (lines <- open_r_lines file_path ;;
     for_each lines transmitir_linea ;;;
     print "Archivo enviado exitosamente.")
    (fun e => print ("Error al transmitir archivo: " +:+ exn_msg e)).

(** One pass of the body of [while True] in [main] with the button
    pressed (lines 156-161), for [n] draws. *)
Definition trigger_n (n : nat) : M unit :=
  print "Botón presionado, midiendo RSSI..." ;;;
  medir_rssi_n n ;;;
  transmitir_archivo "RSSI_Medicion.txt" ;;;
  sleep_ms 2000.

Definition trigger : M unit := trigger_n 10.

End Program.

(** What [transmitir_linea] makes of a line: ignored when the number of
    fields is not two, malformed when a field is not an integer, a record
    otherwise. *)
Inductive line_kind : Type :=
| Ignored
| MalformedLine
| Record (idx rssi : Z).

Definition classify (line : string) : line_kind :=
  match Py.split "," (Py.strip line) with
  | [a; b] =>
      match Py.int a, Py.int b with
      | Some idx, Some rssi => Record idx rssi
      | _, _ => MalformedLine
      end
  | _ => Ignored
  end.

(** A line that yields a frame: a record whose two fields fit a C int. *)
Definition line_frame (line : string) : option (list byte) :=
  match classify line with
  | Record idx rssi =>
      match Struct.pack_ii idx rssi with Ok p => Some p | Raise _ => None end
  | _ => None
  end.

(** A record too large for the frame: [struct.pack] raises on it. *)
Definition overflows (line : string) : bool :=
  match classify line with
  | Record idx rssi => negb (Struct.fits_i idx && Struct.fits_i rssi)
  | _ => false
  end.

(** The events of one line while the radio accepts every frame. *)
Definition line_events (line : string) : list event :=
  match classify line with
  | Ignored => []
  | MalformedLine => [Print ("Línea malformada: " +:+ line)]
  | Record idx rssi =>
      match Struct.pack_ii idx rssi with
      | Ok p => [Send p None; Print ("Enviado RSSI: " +:+ Py.str rssi +:+ " dBm");
                 Sleep 100]
      | Raise _ => []
      end
  end.

(** A frame the radio refused. *)
Definition faulty (e : event) : bool :=
  match e with Send _ (Some _) => true | _ => false end.

(** The events of a pass that exception [e] stopped: no refused frame
    before a record too large for the frame raised, or before the one
    refused frame whose [OSError] it is. *)
Definition stopped_by (e : exn) (evs : list event) : Prop :=
  exists evs0,
    Forall (fun x => faulty x = false) evs0
    /\ ((evs = evs0 /\ exists m, e = StructError m)
        \/ (exists p m, evs = evs0 ++ [Send p (Some m)] /\ e = OSError m)).

(** The frames handed to the radio without a fault, in order. *)
Definition sent (tr : list event) : list (list byte) :=
  omap (fun e => match e with Send p None => Some p | _ => None end) tr.

(** A transmitter with no WiFi association and a radio that accepts every
    frame, and the world at power-up: no file, nothing done yet. *)
Definition offline : env :=
  {| wifi := fun _ => None; nrf_send := fun _ _ => None |}.
Definition boot : world := {| fs := ∅; trace := [] |}.



(** The path of the measurement log, as [medir_rssi] and [main] spell it. *)
Definition path : string := "RSSI_Medicion.txt".

(** Both fields of a record fit a C int. *)
Definition fits_record (iv : Z * Z) : bool :=
  Struct.fits_i (fst iv) && Struct.fits_i (snd iv).

(** The text of a log holding these records, one line each. *)
Definition log_text (records : list (Z * Z)) : string :=
  foldr (fun iv rest => log_line iv +:+ rest) EmptyString records.

(** The frame of a record, and the events of the last trigger that started
    in world [w]. *)
Definition frame (iv : Z * Z) : list byte :=
  Struct.pack_i (fst iv) ++ Struct.pack_i (snd iv).
Definition since (w w' : world) : list event :=
  drop (length (trace w)) (trace w').

End TX.

(** ** The receiver, [RX.py] *)

Module RX.

Inductive event : Type :=
| Print (s : string)
| Any (pending : bool)               (* the answer of [nrf.any()] *)
| Recv (buf : list byte)             (* the payload [nrf.recv()] returned *)
| Led (on : bool)                    (* [led.on()] / [led.off()] *)
| Oled (rssi : Z) (fault : option string)   (* [mostrar_en_oled(rssi)] *)
| Sleep (ms : Z).

(** The radio holds the payloads received and not yet read; [incoming]
    lists what arrives during each of the coming pauses of the program. *)
Record world : Type := {
  fifo : list (list byte);
  incoming : list (list (list byte));
  trace : list event
}.

Definition emit (e : event) (w : world) : world :=
  {| fifo := fifo w; incoming := incoming w; trace := trace w ++ [e] |}.
Definition print (s : string) : world -> world := emit (Print s).

(** [utime.sleep_ms(ms)]: time passes, payloads may arrive. *)
Definition sleep_ms (ms : Z) (w : world) : world :=
  {| fifo := fifo w ++ hd [] (incoming w);
     incoming := tl (incoming w);
     trace := trace w ++ [Sleep ms] |}.

(** [nrf.any()] *)
Definition any_ (w : world) : bool * world :=
  let b := match fifo w with [] => false | _ => true end in
  (b, emit (Any b) w).

(** [nrf.recv()]: the oldest pending payload. *)
Definition recv (w : world) : list byte * world :=
  let buf := hd [] (fifo w) in
  (buf, {| fifo := tl (fifo w); incoming := incoming w;
           trace := trace w ++ [Recv buf] |}).

(** The outcome of the decoding step: the length guard of line 101, then
    the unpacking of line 104. *)
Inductive decoded : Type :=
| Decoded (msg_id rssi : Z)
| SizeMismatch
| Malformed (e : exn).

Definition decode (buf : list byte) : decoded :=
  if decide (length buf = 8%nat) then
    match Struct.unpack_ii buf with
    | Ok (msg_id, rssi) => Decoded msg_id rssi
    | Raise e => Malformed e
    end
  else SizeMismatch.

Section Program.
(** The display driver: [Some msg] when drawing [rssi] raises. *)
Context (oled : list event -> Z -> option string).

(** [mostrar_en_oled(rssi)]: the screen is cleared and redrawn with the
    value; the call is recorded with its outcome. *)
Definition mostrar_en_oled (rssi : Z) (w : world) : option string * world :=
  let fault := oled (trace w) rssi in
  (fault, emit (Oled rssi fault) w).

(** RX.py, lines 101-109: what is done with one received payload. *)
Definition handle_frame (buf : list byte) (w : world) : world :=
  if decide (length buf = 8%nat) then
    match Struct.unpack_ii buf with
    | Ok (msg_id, rssi) =>
        let w1 := print ("Recibido RSSI: " +:+ Py.str rssi +:+ " dBm") w in
        match mostrar_en_oled rssi w1 with
        | (None, w2) => w2
        | (Some msg, w2) => print ("Error de decodificación: " +:+ msg) w2
        end
    | Raise e => print ("Error de decodificación: " +:+ exn_msg e) w
    end
  else w.

(** The inner [while nrf.any()] of lines 99-110; [None]: out of fuel. *)
Fixpoint drain (fuel : nat) (w : world) : option world :=
  match fuel with
  | O => None
  | S fuel' =>
      let (pending, w1) := any_ w in
      if pending then
        let (buf, w2) := recv w1 in
        drain fuel' (sleep_ms 50 (handle_frame buf w2))
      else Some w1
  end.

(** One turn of the outer [while True], lines 95-115. *)
Definition receiver_step (fuel : nat) (w : world) : option world :=
  let (pending, w1) := any_ w in
  if pending then
    w2 ← drain fuel (emit (Led true) w1);
    Some (sleep_ms 100 (emit (Led false) w2))
  else Some (sleep_ms 100 w1).

(** [receiver_loop]: listening starts, then [turns] turns of the loop. *)
Fixpoint receiver_turns (turns fuel : nat) (w : world) : option world :=
  match turns with
  | O => Some w
  | S t => w' ← receiver_step fuel w; receiver_turns t fuel w'
  end.

Definition receiver_loop (turns fuel : nat) (w : world) : option world :=
  receiver_turns turns fuel (print "
Escuchando transmisiones..." w).

End Program.

(** Payloads still to be read, now or later. *)
Definition pending_total (w : world) : nat :=
  (length (fifo w) + length (concat (incoming w)))%nat.

(** The payloads read from the radio, and the values put on the display,
    in order. *)
Definition received (tr : list event) : list (list byte) :=
  omap (fun e => match e with Recv b => Some b | _ => None end) tr.
Definition displayed (tr : list event) : list Z :=
  omap (fun e => match e with Oled r _ => Some r | _ => None end) tr.
Definition is_led (e : event) : bool :=
  match e with Led _ => true | _ => false end.
(** The events of handling a payload: messages and display updates. *)
Definition is_output (e : event) : bool :=
  match e with Print _ | Oled _ _ => true | _ => false end.

(** A display that never faults, and a receiver that has just started
    listening with these payloads pending and nothing more to come. *)
Definition steady : list event -> Z -> option string := fun _ _ => None.
Definition listening (pending : list (list byte)) : world :=
  {| fifo := pending; incoming := []; trace := [] |}.

End RX.

(** ** The statistics in exact arithmetic *)


(** ** The 32-bit word of four byte values *)

(** The unsigned word [unpack_i] assembles, least significant byte first,
    and its reading as a signed integer. *)
Definition word (x0 x1 x2 x3 : Z) : Z :=
  Z.lor x0 (Z.lor (Z.shiftl x1 8) (Z.lor (Z.shiftl x2 16) (Z.shiftl x3 24))).
Definition signed (x0 x1 x2 x3 : Z) : Z :=
  if word x0 x1 x2 x3 <? 2 ^ 31 then word x0 x1 x2 x3
  else word x0 x1 x2 x3 - 2 ^ 32.

(** ** Start-up of the transmitter and its main loop *)

Module TXMain.
Import TX.

(** One failed connection attempt, TX.py lines 30-31. *)
Definition attempt_events (i : Z) : list event :=
  [Print ("Intento " +:+ Py.str (i + 1) +:+ "/10: esperando conexión...");
   Sleep 1000].

Section Program.
Context (E : env).

(** The body of [for i in range(20)], TX.py lines 24-31, for the [k]
    attempts that remain; the answer says whether the loop was left by
    [break].  [ip] is what [wifi.ifconfig()[0]] shows. *)
Fixpoint connect_loop (ip : string) (k : nat) (i : Z) : M bool :=
  match k with
  | O => ret false
  | S k' =>
      fun w =>
        match wifi E (trace w) with
        | Some _ =>
            (print "✅ Conectado a WiFi" ;;;
             print ("IP: " +:+ ip) ;;;
             ret true) w
        | None =>
            (print ("Intento " +:+ Py.str (i + 1) +:+ "/10: esperando conexión...") ;;;
             sleep_ms 1000 ;;;
             connect_loop ip k' (i + 1)) w
        end
  end.

(** TX.py lines 21-33: the loop and its [else] branch. *)
Definition wifi_connect (ip : string) : M unit :=
  print "Conectando a WiFi..." ;;;
  broke <- connect_loop ip 20 0 ;;
  if (broke : bool) then ret tt
  else print "❌ No se pudo conectar a WiFi después de 10 segundos.".

(** [setup_nrf24l01()] as [main] sees it: it raises, or prints its last
    line and returns the radio. *)
Definition setup_nrf24l01 (fault : option string) : M unit :=
  match fault with
  | Some msg => raise (OSError msg)
  | None => print "NRF24L01 configurado en canal 46"
  end.

(** One turn of [while True], TX.py lines 156-161, for one reading of the
    button: 0 is pressed. *)
Definition loop_body (v : Z) : M unit :=
  if decide (v = 0) then trigger E else ret tt.

(** [main], TX.py lines 146-161, over the successive readings of the
    button. *)
Definition main (fault : option string) (boton : list Z) : M unit :=
  print "
--- Transmisor NRF24L01 listo ---" ;;;
  ready <- try_except (setup_nrf24l01 fault ;;; ret true)
             (fun e => print ("Error al configurar NRF24L01: " +:+ exn_msg e) ;;;
                       ret false) ;;
  if (ready : bool) then for_each boton loop_body else ret tt.

End Program.

(** The answers of the WiFi queries, the calls to the radio and the pauses
    in a trace. *)
Definition rssi_queries (tr : list event) : list (option Z) :=
  omap (fun e => match e with Rssi r => Some r | _ => None end) tr.
Definition is_send (e : event) : bool :=
  match e with Send _ _ => true | _ => false end.
Definition pauses (tr : list event) : list Z :=
  omap (fun e => match e with Sleep ms => Some ms | _ => None end) tr.

(** The payloads given to [nrf.send], accepted or refused, in order. *)
Definition attempted (tr : list event) : list (list byte) :=
  omap (fun e => match e with Send p _ => Some p | _ => None end) tr.

(** The events of [j] failed connection attempts in a row, the first with
    index [i]. *)
Fixpoint attempts (j : nat) (i : Z) : list event :=
  match j with
  | O => []
  | S j' => attempt_events i ++ attempts j' (i + 1)
  end.

(** No WiFi, and a radio that accepts one frame and refuses the next
    ones, as the driver does when the acknowledgement is missing. *)
Definition flaky : env :=
  {| wifi := fun _ => None;
     nrf_send := fun h _ => match sent h with
                            | [] => None
                            | _ => Some "send failed"%string
                            end |}.

(** WiFi associated after two polls without connection, then reporting
    -61 dBm; the radio accepts every frame. *)
Definition late : env :=
  {| wifi := fun h => if (length h <? 5)%nat then None else Some (-61);
     nrf_send := fun _ _ => None |}.

(** How many readings of the button are "pressed". *)
Definition presses (boton : list Z) : nat :=
  length (filter (fun v => v = 0) boton).


End TXMain.

(** ** The radio configuration of both endpoints *)

Module Link.

(** The calls [setup_nrf24l01] makes, in order. *)
Inductive call : Type :=
| Spi (id sck mosi miso : Z)
| PinOut (pin value : Z)
| Nrf (payload_size : Z)
| SetChannel (channel : Z)
| RegWrite (reg value : Z)
| OpenTxPipe (address : list byte)
| OpenRxPipe (pipe : Z) (address : list byte)
| Say (s : string).

Definition SPI_ID : Z := 0.
Definition SCK_PIN : Z := 2.
Definition MOSI_PIN : Z := 3.
Definition MISO_PIN : Z := 4.
Definition CSN_PIN : Z := 5.
Definition CE_PIN : Z := 6.
Definition CANAL_RF : Z := 46.
Definition TX_ADDRESS : list byte := [xe1; xf0; xf0; xf0; xf0].
Definition RX_ADDRESS : list byte := [xd2; xf0; xf0; xf0; xf0].
Definition PAYLOAD_SIZE : Z := 8.

(** TX.py, lines 48-81. *)
Definition tx_setup : list call :=
  [Spi SPI_ID SCK_PIN MOSI_PIN MISO_PIN;
   PinOut CSN_PIN 1;
   PinOut CE_PIN 0;
   Nrf PAYLOAD_SIZE;
   SetChannel CANAL_RF;
   RegWrite 6 38;
   OpenTxPipe TX_ADDRESS;
   Say ("NRF24L01 configurado en canal " +:+ Py.str CANAL_RF)].

(** RX.py, lines 36-69. *)
Definition rx_setup : list call :=
  [Spi SPI_ID SCK_PIN MOSI_PIN MISO_PIN;
   PinOut CSN_PIN 1;
   PinOut CE_PIN 0;
   Nrf 8;
   SetChannel CANAL_RF;
   RegWrite 6 38;
   OpenTxPipe RX_ADDRESS;
   OpenRxPipe 1 TX_ADDRESS;
   Say ("NRF24L01 receptor en canal " +:+ Py.str CANAL_RF)].

(** What decides whether two radios hear each other: payload size,
    channel and register writes. *)
Definition air_settings (calls : list call) : list call :=
  omap (fun c => match c with
                 | Nrf _ | SetChannel _ | RegWrite _ _ => Some c
                 | _ => None
                 end) calls.
Definition tx_pipes (calls : list call) : list (list byte) :=
  omap (fun c => match c with OpenTxPipe a => Some a | _ => None end) calls.
Definition rx_pipes (calls : list call) : list (Z * list byte) :=
  omap (fun c => match c with OpenRxPipe n a => Some (n, a) | _ => None end) calls.

End Link.

(** ** Readings of a receiver trace *)

Module RXTrace.
Import RX.

(** The LED switchings, in order. *)
Definition led_events (tr : list event) : list bool :=
  omap (fun e => match e with Led b => Some b | _ => None end) tr.

(** Every [nrf.recv()] comes right after an [nrf.any()] that answered
    true; [armed] says whether the event before was such an answer. *)
Fixpoint guarded (armed : bool) (tr : list event) : bool :=
  match tr with
  | [] => true
  | e :: rest =>
      match e with Recv _ => armed | _ => true end
      && guarded (match e with Any true => true | _ => false end) rest
  end.

(** The metric a payload puts on the display, if any. *)
Definition rssi_of (buf : list byte) : option Z :=
  match decode buf with Decoded _ rssi => Some rssi | _ => None end.

End RXTrace.

(** * Properties *)

(** ** The builtins on concrete inputs *)

Example int_examples :
  Py.int "0" = Some 0 /\ Py.int "-50" = Some (-50) /\ Py.int " +7 " = Some 7
  /\ Py.int "007" = Some 7 /\ Py.int "abc" = None /\ Py.int "- 5" = None
  /\ Py.int "-" = None /\ Py.int " " = None /\ Py.int "1.5" = None
  /\ Py.int "1_000" = Some 1000 /\ Py.int "-1_0" = Some (-10)
  /\ Py.int "0x10" = None /\ Py.int "+" = None.
Proof. repeat split. Qed.

Example split_examples :
  Py.split "," "abc,5" = ["abc"; "5"]%string
  /\ Py.split "," "abc" = ["abc"%string]
  /\ Py.split "," "1,2,3" = ["1"; "2"; "3"]%string
  /\ Py.split "," "," = [EmptyString; EmptyString].
Proof. repeat split. Qed.

Example strip_readlines_examples :
  Py.strip "  a b
" = "a b"%string
  /\ Py.readlines "0,-50
1,-55
" = ["0,-50
"; "1,-55
"]%string
  /\ Py.readlines "0,-50
1,-55" = ["0,-50
"; "1,-55"]%string.
Proof. repeat split. Qed.

Example str_examples :
  Py.str (-55) = "-55"%string /\ Py.str 0 = "0"%string
  /\ Py.str 2147483647 = "2147483647"%string.
Proof. repeat split. Qed.

Example pack_examples :
  Struct.pack_ii 0 (-50) = Ok [x00; x00; x00; x00; xce; xff; xff; xff]
  /\ Struct.pack_ii 258 2147483647 = Ok [x02; x01; x00; x00; xff; xff; xff; x7f]
  /\ Struct.pack_ii 0 2147483648 = Raise (StructError "argument out of range")
  /\ Struct.unpack_ii [x00; x00; x00; x00; xce; xff; xff; xff] = Ok (0, -50)
  /\ Struct.unpack_ii [x00; x00; x00; x80; xff; xff; xff; xff] = Ok (-2147483648, -1).
Proof. repeat split. Qed.

Example classify_examples :
  TX.classify "0,-50
" = TX.Record 0 (-50)
  /\ TX.classify "abc,5
" = TX.MalformedLine
  /\ TX.classify "abc
" = TX.Ignored
  /\ TX.classify "
" = TX.Ignored
  /\ TX.classify "1,2,3
" = TX.Ignored
  /\ TX.classify " 3 , -70 
" = TX.Record 3 (-70)
  /\ TX.classify "1_000,5
" = TX.Record 1000 5.
Proof. repeat split. Qed.

(** Integers convert to the nearest float, without wrapping: the mean of
    two readings of 2^62 is 2^62, and 2^53 + 1, halfway between two floats,
    goes to the even one. *)
Example float_examples :
  TX.float_of_Z (-7) = (-7)%float
  /\ TX.float_of_Z (2 ^ 63) = 9223372036854775808%float
  /\ TX.avg_rssi [2 ^ 62; 2 ^ 62] = 4611686018427387904%float
  /\ TX.float_of_Z (2 ^ 53 + 1) = 9007199254740992%float
  /\ TX.float_of_Z (2 ^ 53 + 3) = 9007199254740996%float.
Proof. repeat split; vm_compute; reflexivity. Qed.

(** ** The codec *)

Section Codec.
Import Struct.

Lemma Z_of_byte_of_Z (z : Z) : Z_of_byte (byte_of_Z z) = z mod 2 ^ 8.
Proof.
  unfold Z_of_byte, byte_of_Z.
  change 255 with (Z.ones 8). rewrite Z.land_ones by lia.
  assert (Hr : 0 <= z mod 2 ^ 8 < 256) by (apply Z.mod_pos_bound; lia).
  destruct (Byte.of_N (Z.to_N (z mod 2 ^ 8))) as [b|] eqn:Hb.
  - apply Byte.to_of_N in Hb. rewrite Hb. apply Z2N.id. lia.
  - apply Byte.of_N_None_iff in Hb. lia.
Qed.

Lemma testbit_mod8 (x n : Z) :
  Z.testbit (x mod 2 ^ 8) n = (n <? 8) && Z.testbit x n.
Proof.
  destruct (Z.ltb_spec n 8); simpl.
  - destruct (Z.neg_nonneg_cases n).
    + by rewrite !Z.testbit_neg_r.
    + apply Z.mod_pow2_bits_low. lia.
  - apply Z.mod_pow2_bits_high. lia.
Qed.

Lemma bytes_recompose (z : Z) :
  Z.lor (z mod 2 ^ 8)
    (Z.lor (Z.shiftl (Z.shiftr z 8 mod 2 ^ 8) 8)
       (Z.lor (Z.shiftl (Z.shiftr z 16 mod 2 ^ 8) 16)
          (Z.shiftl (Z.shiftr z 24 mod 2 ^ 8) 24))) = z mod 2 ^ 32.
Proof.
  apply Z.bits_inj'. intros n Hn.
  rewrite !Z.lor_spec, !Z.shiftl_spec by lia.
  rewrite !testbit_mod8.
  destruct (Z.ltb_spec n 32) as [H32|H32].
  - rewrite (Z.mod_pow2_bits_low z 32 n) by lia.
    destruct (Z.ltb_spec n 8); simpl.
    { rewrite !(Z.testbit_neg_r _ (n - _)) by lia.
      rewrite !andb_false_r. by rewrite !orb_false_r. }
    destruct (Z.ltb_spec (n - 8) 8); simpl.
    { rewrite Z.shiftr_spec by lia. replace (n - 8 + 8) with n by lia.
      rewrite !(Z.testbit_neg_r _ (n - _)) by lia.
      rewrite !andb_false_r. by rewrite !orb_false_r. }
    destruct (Z.ltb_spec (n - 16) 8); simpl.
    { rewrite Z.shiftr_spec by lia. replace (n - 16 + 16) with n by lia.
      rewrite !(Z.testbit_neg_r _ (n - _)) by lia.
      rewrite !andb_false_r. by rewrite !orb_false_r. }
    destruct (Z.ltb_spec (n - 24) 8); [|lia]. simpl.
    rewrite Z.shiftr_spec by lia. by replace (n - 24 + 24) with n by lia.
  - rewrite (Z.mod_pow2_bits_high z 32 n) by lia.
    destruct (Z.ltb_spec n 8); [lia|].
    destruct (Z.ltb_spec (n - 8) 8); [lia|].
    destruct (Z.ltb_spec (n - 16) 8); [lia|].
    destruct (Z.ltb_spec (n - 24) 8); [lia|]. done.
Qed.

Lemma unpack_pack_i (z : Z) :
  fits_i z = true ->
  match pack_i z with
  | [b0; b1; b2; b3] => unpack_i b0 b1 b2 b3 = z
  | _ => False
  end.
Proof.
  unfold fits_i, INT_MIN, INT_MAX. intros Hz.
  apply andb_true_iff in Hz as [Hlo Hhi].
  apply Z.leb_le in Hlo, Hhi.
  unfold pack_i, unpack_i. rewrite !Z_of_byte_of_Z, bytes_recompose.
  change (2 ^ 32) with 4294967296 in *. change (2 ^ 31) with 2147483648 in *.
  destruct (Z.ltb_spec (z mod 4294967296) 2147483648);
    Z.div_mod_to_equations; lia.
Qed.

Lemma length_pack_i (z : Z) : length (pack_i z) = 4%nat.
Proof. reflexivity. Qed.

End Codec.

(** C1: for a record whose two fields fit in a signed 32-bit integer,
    [struct.pack("ii", sequence_id, metric)] succeeds, the frame has exactly
    8 bytes, and [struct.unpack("ii", frame)], and with it the receiver's
    decoding step, gives back the same pair, sequence id first and metric
    second. *)
Theorem codec_round_trip (sequence_id metric : Z) :
  Struct.fits_i sequence_id = true ->
  Struct.fits_i metric = true ->
  exists frame,
    Struct.pack_ii sequence_id metric = Ok frame
    /\ length frame = 8%nat
    /\ Struct.unpack_ii frame = Ok (sequence_id, metric)
    /\ RX.decode frame = RX.Decoded sequence_id metric.
Proof.
  intros Ha Hb. exists (Struct.pack_i sequence_id ++ Struct.pack_i metric).
  assert (Hu : Struct.unpack_ii (Struct.pack_i sequence_id ++ Struct.pack_i metric)
               = Ok (sequence_id, metric)).
  { pose proof (unpack_pack_i _ Ha) as Ua. pose proof (unpack_pack_i _ Hb) as Ub.
    unfold Struct.pack_i in *. simpl. by rewrite Ua, Ub. }
  repeat split.
  - unfold Struct.pack_ii. by rewrite Ha, Hb.
  - exact Hu.
  - unfold RX.decode. rewrite decide_True by reflexivity. by rewrite Hu.
Qed.

Lemma codec_round_trip_witness :
  exists frame,
    Struct.pack_ii 7 (-100) = Ok frame
    /\ length frame = 8%nat
    /\ Struct.unpack_ii frame = Ok (7, -100)
    /\ RX.decode frame = RX.Decoded 7 (-100).
Proof. apply (codec_round_trip 7 (-100)); reflexivity. Defined.

(** C3: a payload whose length is not 8 is rejected by the length guard:
    the decoding step answers [SizeMismatch] whatever the bytes are (the
    answer is the same for every payload of that length, so none of its
    bytes is read as an integer), and the receiver does nothing with the
    payload.  This covers the lengths 0, 1, 7, 9 and 16. *)
Theorem decode_size_guard (b : list byte) :
  length b <> 8%nat ->
  RX.decode b = RX.SizeMismatch
  /\ (forall b', length b' = length b -> RX.decode b' = RX.decode b)
  /\ (forall oled w, RX.handle_frame oled b w = w)
  /\ Forall (fun n => forall b0 : list byte,
               length b0 = n -> RX.decode b0 = RX.SizeMismatch)
            [0; 1; 7; 9; 16]%nat.
Proof.
  intros Hlen.
  assert (Hd : forall b0 : list byte, length b0 <> 8%nat ->
                                      RX.decode b0 = RX.SizeMismatch).
  { intros b0 H0. unfold RX.decode. by rewrite decide_False. }
  split; [by apply Hd|]. split.
  { intros b' Hb'. rewrite !Hd; [done|done|congruence]. }
  split.
  { intros oled w. unfold RX.handle_frame. by rewrite decide_False. }
  repeat constructor; intros b0 H0; apply Hd; rewrite H0; lia.
Qed.

Lemma decode_size_guard_witness :
  RX.decode [x01; x02; x03] = RX.SizeMismatch.
Proof. refine (proj1 (decode_size_guard [x01; x02; x03] _)). simpl. lia. Defined.

(** ** Facts about the string builtins *)

Section PyFacts.
Import Py.

Lemma append_cons (c : ascii) (s t : string) :
  String c s +:+ t = String c (s +:+ t).
Proof. reflexivity. Qed.

Lemma append_nil_l (t : string) : EmptyString +:+ t = t.
Proof. reflexivity. Qed.

Lemma append_nil_r (s : string) : s +:+ EmptyString = s.
Proof. induction s as [|x s IH]; [done|]. by rewrite append_cons, IH. Qed.

Lemma append_assoc (a b c : string) : (a +:+ b) +:+ c = a +:+ (b +:+ c).
Proof. induction a as [|x a IH]; [done|]. by rewrite !append_cons, IH. Qed.

Lemma all_chars_app (P : ascii -> bool) (a b : string) :
  all_chars P (a +:+ b) = all_chars P a && all_chars P b.
Proof.
  induction a as [|x a IH]; [done|].
  rewrite append_cons. simpl. rewrite IH. by rewrite andb_assoc.
Qed.

Lemma all_chars_impl (P Q : ascii -> bool) (s : string) :
  (forall c, P c = true -> Q c = true) ->
  all_chars P s = true -> all_chars Q s = true.
Proof.
  intros HPQ. induction s as [|x s IH]; [done|]. simpl.
  intros [Hx Hs]%andb_true_iff. rewrite (HPQ _ Hx). by apply IH.
Qed.

Lemma lstrip_nospace (s : string) :
  all_chars (fun c => negb (is_space c)) s = true -> lstrip s = s.
Proof.
  destruct s as [|c r]; [done|]. simpl.
  intros [Hc _]%andb_true_iff. by destruct (is_space c).
Qed.

Lemma rstrip_nospace (s : string) :
  all_chars (fun c => negb (is_space c)) s = true -> rstrip s = s.
Proof.
  induction s as [|c r IH]; [done|]. simpl.
  intros [Hc Hr]%andb_true_iff. rewrite (IH Hr).
  destruct r; [|done]. by destruct (is_space c).
Qed.

Lemma rstrip_spaces (t : string) :
  all_chars is_space t = true -> rstrip t = EmptyString.
Proof.
  induction t as [|c r IH]; [done|]. simpl.
  intros [Hc Hr]%andb_true_iff. by rewrite (IH Hr), Hc.
Qed.

Lemma rstrip_app_spaces (s t : string) :
  all_chars is_space t = true -> rstrip (s +:+ t) = rstrip s.
Proof.
  intros Ht. induction s as [|c r IH].
  - rewrite append_nil_l. by apply rstrip_spaces.
  - rewrite append_cons. simpl. by rewrite IH.
Qed.

Lemma strip_line (s t : string) :
  all_chars (fun c => negb (is_space c)) s = true ->
  all_chars is_space t = true ->
  strip (s +:+ t) = s.
Proof.
  intros Hs Ht. unfold strip. destruct s as [|c r].
  - rewrite append_nil_l.
    assert (lstrip t = EmptyString) as ->; [|done].
    clear Hs. induction t as [|x t IH]; [done|]. simpl in *.
    apply andb_true_iff in Ht as [-> Ht]. by apply IH.
  - rewrite append_cons. simpl in Hs. apply andb_true_iff in Hs as [Hc Hr].
    assert (lstrip (String c (r +:+ t)) = String c (r +:+ t)) as ->.
    { simpl. by destruct (is_space c). }
    rewrite <- append_cons, rstrip_app_spaces by done.
    apply rstrip_nospace. simpl. by rewrite Hc, Hr.
Qed.

Lemma split_nosep (sep : ascii) (s : string) :
  all_chars (fun c => negb (Ascii.eqb c sep)) s = true ->
  split sep s = [s].
Proof.
  induction s as [|c r IH]; [done|]. simpl.
  intros [Hc Hr]%andb_true_iff. rewrite (IH Hr).
  by destruct (Ascii.eqb c sep).
Qed.

Lemma split_app (sep : ascii) (a b : string) :
  all_chars (fun c => negb (Ascii.eqb c sep)) a = true ->
  split sep (a +:+ String sep b) = a :: split sep b.
Proof.
  induction a as [|c r IH].
  - intros _. rewrite append_nil_l. simpl. by rewrite Ascii.eqb_refl.
  - intros H. simpl in H. apply andb_true_iff in H as [Hc Hr].
    rewrite ?append_cons. simpl.
    rewrite (IH Hr). by destruct (Ascii.eqb c sep).
Qed.

Lemma readlines_app (l rest : string) :
  all_chars (fun c => negb (Ascii.eqb c "010")) l = true ->
  readlines (l +:+ String "010" rest) = (l +:+ String "010" EmptyString) :: readlines rest.
Proof.
  induction l as [|c r IH].
  - intros _. by rewrite !append_nil_l.
  - intros H. simpl in H. apply andb_true_iff in H as [Hc Hr].
    rewrite ?append_cons. simpl.
    rewrite (IH Hr). by destruct (Ascii.eqb c "010").
Qed.

Lemma numchar_cases (c : ascii) :
  is_numchar c = true ->
  is_space c = false /\ Ascii.eqb c "," = false
  /\ Ascii.eqb c "010" = false /\ Ascii.eqb c "+" = false.
Proof.
  destruct c as [[|] [|] [|] [|] [|] [|] [|] [|]]; vm_compute; intros H;
    (discriminate H || done).
Qed.

Lemma digits_numchar (d : uint) :
  all_chars (fun c => is_numchar c && negb (Ascii.eqb c "-"))
            (NilEmpty.string_of_uint d) = true.
Proof. induction d; simpl; try done. Qed.

Lemma str_numchar (z : Z) : all_chars is_numchar (str z) = true.
Proof.
  assert (Hd : forall d, all_chars is_numchar (NilZero.string_of_uint d) = true).
  { intros d. destruct d; try done;
      apply (all_chars_impl _ _ _ (fun c H => proj1 (andb_prop _ _ H))
                            (digits_numchar _)). }
  unfold str. destruct (Z.to_int z); simpl; [apply Hd|].
  apply Hd.
Qed.

Lemma digits_grouped_digits (s : string) (prev : bool) :
  all_chars is_digit s = true ->
  digits_grouped prev s
  = match s with
    | EmptyString => if prev then Some EmptyString else None
    | _ => Some s
    end.
Proof.
  revert prev. induction s as [|c r IH]; intros prev; [done|]. simpl.
  intros [-> Hr]%andb_true_iff. rewrite (IH true Hr). by destruct r.
Qed.

Lemma digits_value_str (p : positive) :
  digits_value (NilZero.string_of_uint (Pos.to_uint p)) = Some (Pos.to_uint p).
Proof.
  pose proof (Unsigned.to_uint_nonnil p) as Hnil.
  unfold digits_value. rewrite digits_grouped_digits.
  - destruct (NilZero.string_of_uint (Pos.to_uint p)) eqn:Hs.
    + revert Hs Hnil. by destruct (Pos.to_uint p).
    + rewrite <- Hs. by apply NilZero.usu.
  - assert (NilZero.string_of_uint (Pos.to_uint p)
            = NilEmpty.string_of_uint (Pos.to_uint p)) as ->
      by (by destruct (Pos.to_uint p)).
    eapply all_chars_impl; [|apply digits_numchar].
    intros c. unfold is_numchar, is_digit.
    destruct (Ascii.eqb c "-"); simpl; [done|].
    by rewrite andb_true_r.
Qed.

Lemma int_str (z : Z) : int (str z) = Some z.
Proof.
  unfold int.
  assert (Hs : strip (str z) = str z).
  { rewrite <- (append_nil_r (str z)) at 1. apply strip_line; [|done].
    eapply all_chars_impl; [|apply str_numchar].
    intros c Hc. by destruct (numchar_cases c Hc) as (-> & _). }
  rewrite Hs. unfold str. destruct z as [|p|p]; [done|..].
  - simpl Z.to_int. cbv [NilZero.string_of_int].
    pose proof (digits_value_str p) as Hv.
    pose proof (digits_numchar (Pos.to_uint p)) as Hd.
    destruct (NilZero.string_of_uint (Pos.to_uint p)) as [|c r] eqn:Hstr.
    { by destruct (Pos.to_uint p). }
    assert (NilEmpty.string_of_uint (Pos.to_uint p) = String c r) as Hstr'.
    { rewrite <- Hstr. pose proof (Unsigned.to_uint_nonnil p) as Hnil.
      revert Hnil. by destruct (Pos.to_uint p). }
    rewrite Hstr' in Hd. simpl in Hd.
    apply andb_true_iff in Hd as [[Hn Hm]%andb_true_iff _].
    apply negb_true_iff in Hm. rewrite Hm.
    destruct (numchar_cases c Hn) as (_ & _ & _ & ->).
    rewrite Hv. simpl. unfold Z.of_uint.
    by rewrite Unsigned.of_to.
  - simpl Z.to_int. cbv [NilZero.string_of_int].
    rewrite Ascii.eqb_refl, digits_value_str. simpl.
    unfold Z.of_uint. by rewrite Unsigned.of_to.
Qed.

End PyFacts.

(** ** The transmitter: sampling, logging, transmission *)

Section TXFacts.
Import TX Py.
Context (E : env).

Lemma sample_loop_spec (k : nat) :
  forall (i : Z) (acc : list Z) (w : world),
  exists vals evs,
    sample_loop E k i acc w
    = (Ok (acc ++ vals), {| fs := fs w; trace := trace w ++ evs |})
    /\ length vals = k
    /\ sent evs = []
    /\ Forall (fun v => v = -100 \/ exists h, wifi E h = Some v) vals
    /\ ((forall h, wifi E h = None) -> vals = replicate k (-100)).
Proof.
  induction k as [|k IH]; intros i acc w.
  - exists [], []. destruct w as [m tr]. simpl. unfold ret.
    rewrite !app_nil_r. repeat split; auto.
  - simpl. unfold bind at 1. unfold read_rssi.
    unfold bind at 1. unfold print at 1, emit at 1. cbn [fs trace].
    unfold bind at 1. unfold sleep_ms at 1, emit at 1. cbn [fs trace].
    set (r := wifi E (trace w)).
    match goal with |- context [sample_loop E k ?i' ?acc' ?w'] =>
      destruct (IH i' acc' w') as (vals & evs & Heq & Hlen & Hsent & Hall & Hnone);
      rewrite Heq end.
    cbn [fs trace].
    eexists (default (-100) r :: vals), (_ :: _ :: _ :: evs).
    split; [|split; [|split; [|split]]].
    + rewrite <- !app_assoc. simpl. reflexivity.
    + simpl. by rewrite Hlen.
    + simpl. exact Hsent.
    + constructor; [|done]. subst r. destruct (wifi E (trace w)) eqn:Hw; simpl; eauto.
    + intros HN. simpl. rewrite (Hnone HN). subst r. by rewrite HN.
Qed.

Lemma write_lines_spec (records : list (Z * Z)) :
  forall (c : string) (m : gmap string string) (tr : list event),
    for_each records (fun iv => file_write path (log_line iv))
             {| fs := <[path := c]> m; trace := tr |}
    = (Ok tt, {| fs := <[path := c +:+ log_text records]> m; trace := tr |}).
Proof.
  induction records as [|iv records IH]; intros c m tr; simpl.
  - unfold ret. by rewrite append_nil_r.
  - unfold bind, file_write. cbn [fs trace].
    rewrite alter_insert_eq, IH. by rewrite append_assoc.
Qed.

Lemma medir_rssi_n_spec (n : nat) (w : world) :
  (0 < n)%nat ->
  exists vals evs,
    sample_loop E n 0 [] w = (Ok vals, {| fs := fs w; trace := trace w ++ evs |})
    /\ length vals = n
    /\ sent evs = []
    /\ Forall (fun v => v = -100 \/ exists h, wifi E h = Some v) vals
    /\ ((forall h, wifi E h = None) -> vals = replicate n (-100))
    /\ medir_rssi_n E n w
       = (Ok tt, {| fs := <[path := log_text (enumerate vals)]> (fs w);
                    trace := trace w ++ evs ++ [PrintAvg (avg_rssi vals);
                                                PrintStd (std_dev_rssi vals)] |}).
Proof.
  intros Hn.
  destruct (sample_loop_spec n 0 [] w) as (vals & evs & Heq & Hlen & Hsent & Hall & Hnone).
  simpl in Heq. exists vals, evs. repeat (split; [done|]).
  unfold medir_rssi_n. unfold bind at 1. rewrite Heq.
  rewrite decide_False by (intros ->; simpl in Hlen; lia).
  unfold bind at 1, ret at 1. unfold bind at 1, emit at 1. cbn [fs trace].
  unfold bind at 1, emit at 1. cbn [fs trace].
  unfold bind at 1, open_w at 1. cbn [fs trace].
  fold path. rewrite write_lines_spec. rewrite append_nil_l.
  by rewrite <- !app_assoc.
Qed.


End TXFacts.

(** ** The statistics of the sampler *)


Section TransmitFacts.
Import TX Py.
Context (E : env).

Lemma log_line_shape (i v : Z) :
  log_line (i, v) = (str i +:+ String "," (str v)) +:+ String "010" EmptyString.
Proof. unfold log_line. simpl fst; simpl snd. by rewrite append_assoc. Qed.

Lemma record_text_clean (i v : Z) (P : ascii -> bool) :
  (forall c, is_numchar c = true -> P c = true) -> P ","%char = true ->
  all_chars P (str i +:+ String "," (str v)) = true.
Proof.
  intros HP Hc. rewrite all_chars_app. simpl. rewrite Hc.
  by rewrite !(all_chars_impl _ _ _ HP (str_numchar _)).
Qed.

Lemma classify_log_line (i v : Z) : classify (log_line (i, v)) = Record i v.
Proof.
  unfold classify. rewrite log_line_shape, strip_line; [|..|done].
  - rewrite split_app, split_nosep, !int_str; [done|..];
      (eapply all_chars_impl; [|apply str_numchar]);
      intros c Hc; by destruct (numchar_cases c Hc) as (_ & -> & _).
  - apply record_text_clean; [|done].
    intros c Hc. by destruct (numchar_cases c Hc) as (-> & _).
Qed.

Lemma readlines_log_text (records : list (Z * Z)) :
  readlines (log_text records) = map log_line records.
Proof.
  induction records as [|[i v] records IH]; [done|].
  simpl log_text. rewrite log_line_shape, append_assoc.
  rewrite append_cons, append_nil_l, readlines_app.
  - rewrite IH. simpl map. by rewrite log_line_shape.
  - apply record_text_clean; [|done].
    intros c Hc. by destruct (numchar_cases c Hc) as (_ & _ & -> & _).
Qed.

(** The line loop, case by case. *)
Lemma transmitir_linea_classify (line : string) (w : world) :
  transmitir_linea E line w
  = match classify line with
    | Ignored => (Ok tt, w)
    | MalformedLine => print ("Línea malformada: " +:+ line) w
    | Record idx rssi =>
        (payload <- lift (Struct.pack_ii idx rssi) ;;
         send E payload ;;;
         print ("Enviado RSSI: " +:+ Py.str rssi +:+ " dBm") ;;;
         sleep_ms 100) w
    end.
Proof.
  unfold transmitir_linea, classify.
  destruct (split "," (strip line)) as [|a [|b [|c l]]]; try done.
  rewrite decide_True by done. simpl.
  unfold try_except_ValueError, int_, bind, ret, raise, lift, send, print,
    sleep_ms, emit, Struct.pack_ii.
  destruct (int a) as [idx|]; [|reflexivity].
  destruct (int b) as [rssi|]; [|reflexivity].
  destruct (Struct.fits_i idx && Struct.fits_i rssi); [|reflexivity].
  cbn [fs trace].
  destruct (nrf_send E (trace w) _); reflexivity.
Qed.

Hypothesis link_up : forall h p, nrf_send E h p = None.

Lemma transmitir_linea_ok (line : string) (w : world) :
  overflows line = false ->
  transmitir_linea E line w
  = (Ok tt, {| fs := fs w; trace := trace w ++ line_events line |}).
Proof.
  intros Hov. rewrite transmitir_linea_classify.
  unfold overflows, line_events in *. destruct (classify line) as [| |idx rssi].
  - destruct w. simpl. by rewrite app_nil_r.
  - done.
  - apply negb_false_iff in Hov. unfold Struct.pack_ii. rewrite Hov.
    unfold bind, lift, send, print, sleep_ms, emit. rewrite link_up.
    cbn [fs trace]. by rewrite <- !app_assoc.
Qed.

Lemma transmit_lines_ok (lines : list string) :
  forall w : world,
    Forall (fun l => overflows l = false) lines ->
    for_each lines (transmitir_linea E) w
    = (Ok tt, {| fs := fs w; trace := trace w ++ concat (map line_events lines) |}).
Proof.
  induction lines as [|l lines IH]; intros w Hall.
  - destruct w. simpl. unfold ret. by rewrite app_nil_r.
  - apply Forall_cons in Hall as [Hl Hall]. simpl. unfold bind.
    rewrite (transmitir_linea_ok _ _ Hl), (IH _ Hall). simpl.
    by rewrite <- app_assoc.
Qed.

Lemma transmitir_archivo_ok (file_path c : string) (w : world) :
  fs w !! file_path = Some c ->
  Forall (fun l => overflows l = false) (readlines c) ->
  transmitir_archivo E file_path w
  = (Ok tt, {| fs := fs w;
               trace := trace w ++ concat (map line_events (readlines c))
                                ++ [Print "Archivo enviado exitosamente."] |}).
Proof.
  intros Hc Hall. unfold transmitir_archivo, try_except, bind, open_r_lines.
  rewrite Hc, (transmit_lines_ok _ _ Hall). simpl.
  by rewrite <- app_assoc.
Qed.

End TransmitFacts.

Lemma sent_line_events (lines : list string) :
  TX.sent (concat (map TX.line_events lines)) = omap TX.line_frame lines.
Proof.
  induction lines as [|l lines IH]; [done|].
  simpl. unfold TX.sent in *. rewrite omap_app, IH. f_equal.
  unfold TX.line_events, TX.line_frame.
  destruct (TX.classify l) as [| |idx rssi]; try done.
  by destruct (Struct.pack_ii idx rssi).
Qed.

(** Every way a pass can end, with what it has printed. *)

Section ReportFacts.
Import TX.
Context (E : env).

Lemma transmitir_linea_cases (line : string) (w : world) :
  exists r evs,
    transmitir_linea E line w = (r, {| fs := fs w; trace := trace w ++ evs |})
    /\ match r with
       | Ok _ => Forall (fun x => faulty x = false) evs
       | Raise e => stopped_by e evs
       end.
Proof.
  rewrite transmitir_linea_classify. destruct (classify line) as [| |idx rssi].
  - exists (Ok tt), []. destruct w. simpl. by rewrite app_nil_r.
  - eexists (Ok tt), [_]. split; [reflexivity|]. by repeat constructor.
  - unfold bind, lift, Struct.pack_ii, send, print, sleep_ms, emit.
    destruct (Struct.fits_i idx && Struct.fits_i rssi).
    + cbn [fs trace]. destruct (nrf_send E (trace w) _) as [m|].
      * eexists (Raise _), [_]. split; [reflexivity|].
        exists []. split; [done|]. right. by eexists _, _.
      * exists (Ok tt),
          [Send (Struct.pack_i idx ++ Struct.pack_i rssi) None;
           Print ("Enviado RSSI: " +:+ Py.str rssi +:+ " dBm"); Sleep 100].
        split; [cbn [fs trace]; by rewrite <- !app_assoc|].
        by repeat constructor.
    + eexists (Raise _), []. destruct w. simpl. rewrite app_nil_r.
      split; [reflexivity|]. exists []. split; [done|]. left. eauto.
Qed.

Lemma transmit_lines_cases (lines : list string) :
  forall w : world,
  exists r evs,
    for_each lines (transmitir_linea E) w
    = (r, {| fs := fs w; trace := trace w ++ evs |})
    /\ match r with
       | Ok _ => Forall (fun x => faulty x = false) evs
       | Raise e => stopped_by e evs
       end.
Proof.
  induction lines as [|l lines IH]; intros w.
  - exists (Ok tt), []. destruct w. simpl. unfold ret. by rewrite app_nil_r.
  - simpl. unfold bind.
    destruct (transmitir_linea_cases l w) as (r1 & evs1 & -> & H1).
    destruct r1 as [[]|e1].
    + destruct (IH {| fs := fs w; trace := trace w ++ evs1 |})
        as (r2 & evs2 & -> & H2).
      cbn [fs trace]. exists r2, (evs1 ++ evs2). rewrite <- app_assoc.
      split; [done|]. destruct r2 as [[]|e2].
      * by apply Forall_app.
      * destruct H2 as (evs0 & H0 & [[-> Hm]|(p & m & -> & ->)]).
        -- exists (evs1 ++ evs0). split; [by apply Forall_app|]. by left.
        -- exists (evs1 ++ evs0). split; [by apply Forall_app|]. right.
           exists p, m. by rewrite <- app_assoc.
    + by exists (Raise e1), evs1.
Qed.

Lemma transmitir_archivo_reports (file_path : string) (w : world) :
  exists evs msg,
    transmitir_archivo E file_path w
    = (Ok tt, {| fs := fs w; trace := trace w ++ evs ++ [Print msg] |})
    /\ (msg = "Archivo enviado exitosamente."%string
        \/ exists e, msg = "Error al transmitir archivo: " +:+ exn_msg e)
    /\ (forall p m, Send p (Some m) ∈ evs ->
          msg = "Error al transmitir archivo: " +:+ m)
    /\ (fs w !! file_path = None ->
          evs = [] /\ msg = "Error al transmitir archivo: [Errno 2] ENOENT"%string).
Proof.
  unfold transmitir_archivo, try_except, bind, open_r_lines.
  destruct (fs w !! file_path) as [c|] eqn:Hc.
  - destruct (transmit_lines_cases (Py.readlines c) w) as (r & evs & -> & Hr).
    assert (Hclean : forall evs0 p m,
               Forall (fun x => faulty x = false) evs0 ->
               Send p (Some m) ∈ evs0 -> False).
    { intros evs0 p m H0 Hin. rewrite Forall_forall in H0.
      by specialize (H0 _ Hin). }
    destruct r as [[]|e].
    + eexists evs, _. unfold print, emit. cbn [fs trace].
      rewrite <- app_assoc. split; [reflexivity|]. split; [by left|].
      split; [|done]. intros p m Hin. by destruct (Hclean _ _ _ Hr Hin).
    + eexists evs, _. unfold print, emit. cbn [fs trace].
      rewrite <- app_assoc. split; [reflexivity|]. split; [right; eauto|].
      split; [|done]. intros p m Hin.
      destruct Hr as (evs0 & H0 & [[-> _]|(p' & m' & -> & ->)]).
      * by destruct (Hclean _ _ _ H0 Hin).
      * apply elem_of_app in Hin as [Hin|Hin].
        -- by destruct (Hclean _ _ _ H0 Hin).
        -- apply list_elem_of_singleton in Hin. by injection Hin as _ ->.
  - eexists [], _. unfold print, emit. cbn [fs trace]. simpl.
    split; [reflexivity|]. split; [right; by eexists (OSError _)|].
    split; [|done]. intros p m Hin. by apply not_elem_of_nil in Hin.
Qed.

End ReportFacts.

Section CycleFacts.
Import TX Py.
Context (E : env).
Hypothesis link_up : forall h p, nrf_send E h p = None.
Hypothesis readings_fit : forall h v, wifi E h = Some v -> Struct.fits_i v = true.

Lemma enumerate_fits (vals : list Z) :
  Z.of_nat (length vals) <= 2 ^ 31 ->
  Forall (fun v => Struct.fits_i v = true) vals ->
  Forall (fun iv => fits_record iv = true) (enumerate vals).
Proof.
  intros Hlen Hall. apply Forall_forall. intros [i v] Hin.
  apply elem_of_lookup_imap_1 in Hin as (k & x & [= -> ->] & Hk).
  unfold fits_record. simpl. apply andb_true_iff. split.
  - apply lookup_lt_Some in Hk.
    unfold Struct.fits_i, Struct.INT_MIN, Struct.INT_MAX.
    apply andb_true_iff. split; apply Z.leb_le; lia.
  - rewrite Forall_forall in Hall. apply Hall.
    by apply list_elem_of_lookup_2 in Hk.
Qed.

Lemma log_lines_frames (records : list (Z * Z)) :
  Forall (fun iv => fits_record iv = true) records ->
  Forall (fun l => overflows l = false) (map log_line records)
  /\ omap line_frame (map log_line records) = map frame records.
Proof.
  induction 1 as [|[i v] records Hiv _ [IH1 IH2]]; [done|].
  unfold fits_record in Hiv. simpl in Hiv. split.
  - simpl. constructor; [|done].
    unfold overflows. by rewrite classify_log_line, Hiv.
  - assert (Hlf : line_frame (log_line (i, v)) = Some (frame (i, v))).
    { unfold line_frame. rewrite classify_log_line.
      unfold Struct.pack_ii. by rewrite Hiv. }
    rewrite map_cons.
    change (log_line (i, v) :: map log_line records)
      with ([log_line (i, v)] ++ map log_line records).
    rewrite omap_app, IH2.
    assert (omap line_frame [log_line (i, v)] = [frame (i, v)]) as ->; [|done].
    change (omap line_frame [log_line (i, v)])
      with (match line_frame (log_line (i, v)) with
            | Some y => [y] | None => [] end).
    by rewrite Hlf.
Qed.

Lemma trigger_n_spec (n : nat) (w : world) :
  (0 < n)%nat -> Z.of_nat n <= 2 ^ 31 ->
  exists vals evs,
    fst (sample_loop E n 0 []
           (snd (print "Botón presionado, midiendo RSSI..." w))) = Ok vals
    /\ length vals = n
    /\ ((forall h, wifi E h = None) -> vals = replicate n (-100))
    /\ trigger_n E n w
       = (Ok tt, {| fs := <[path := log_text (enumerate vals)]> (fs w);
                    trace := trace w ++ evs |})
    /\ sent evs = map frame (enumerate vals).
Proof.
  intros Hn Hmax.
  set (w1 := snd (print "Botón presionado, midiendo RSSI..." w)).
  destruct (medir_rssi_n_spec E n w1 Hn)
    as (vals & evs & Hs & Hlen & Hsent & Hall & Hnone & Hm).
  assert (Hfit : Forall (fun iv => fits_record iv = true) (enumerate vals)).
  { apply enumerate_fits; [by rewrite Hlen|].
    eapply Forall_impl; [exact Hall|]. intros v [->|[h Hv]]; [done|eauto]. }
  destruct (log_lines_frames _ Hfit) as [Hov Hfr].
  eexists vals, _. split; [by rewrite Hs|]. split; [done|]. split; [done|].
  split.
  - unfold trigger_n. unfold bind at 1. unfold print at 1, emit at 1.
    unfold bind at 1. fold w1 in Hm. unfold w1, print, emit in Hm. simpl in Hm.
    rewrite Hm. unfold bind at 1.
    erewrite (transmitir_archivo_ok E link_up);
      [| cbn [fs]; apply lookup_insert_eq | by rewrite readlines_log_text].
    unfold sleep_ms, emit. cbn [fs trace].
    rewrite readlines_log_text. rewrite <- !app_assoc. reflexivity.
  - unfold sent in *. rewrite !omap_app. fold sent.
    rewrite sent_line_events, Hfr. simpl.
    unfold sent in Hsent. rewrite Hsent. simpl. by rewrite app_nil_r.
Qed.

End CycleFacts.

Lemma since_app (w : TX.world) (m : gmap string string) (evs : list TX.event) :
  TX.since w {| TX.fs := m; TX.trace := TX.trace w ++ evs |} = evs.
Proof. unfold TX.since. simpl. by rewrite drop_app_length. Qed.

(** C4: when the WiFi interface reports no connection at every draw, the
    sampling loop of [n > 0] draws collects exactly [n] readings, all -100;
    the records written to the log are [(i, -100)] for [i = 0 .. n-1], in
    that order. *)
Theorem sampler_sentinel (E : TX.env) (n : nat) (w : TX.world) :
  (0 < n)%nat ->
  (forall h, TX.wifi E h = None) ->
  exists w1 w',
    TX.sample_loop E n 0 [] w = (Ok (replicate n (-100)), w1)
    /\ length (TX.enumerate (replicate n (-100))) = n
    /\ (forall i, (i < n)%nat ->
          TX.enumerate (replicate n (-100)) !! i = Some (Z.of_nat i, -100))
    /\ TX.medir_rssi_n E n w = (Ok tt, w')
    /\ TX.fs w' !! TX.path
       = Some (TX.log_text (TX.enumerate (replicate n (-100))))
    /\ (n = 10%nat ->
        TX.medir_rssi E w = (Ok tt, w')
        /\ TX.fs w' !! TX.path = Some "0,-100
1,-100
2,-100
3,-100
4,-100
5,-100
6,-100
7,-100
8,-100
9,-100
"%string).
Proof.
  intros Hn Hoff.
  destruct (medir_rssi_n_spec E n w Hn)
    as (vals & evs & Hs & Hlen & _ & _ & Hnone & Hm).
  rewrite (Hnone Hoff) in *. eexists _, _.
  split; [exact Hs|]. split.
  { unfold TX.enumerate. by rewrite length_imap, length_replicate. }
  split.
  { intros i Hi. unfold TX.enumerate.
    by rewrite list_lookup_imap, lookup_replicate_2. }
  split; [exact Hm|]. cbn [TX.fs].
  split; [apply lookup_insert_eq|].
  intros ->. split; [exact Hm|]. apply lookup_insert_eq.
Qed.

Lemma sampler_sentinel_witness :
  exists w1 w',
    TX.sample_loop TX.offline 10 0 [] TX.boot = (Ok (replicate 10 (-100)), w1)
    /\ length (TX.enumerate (replicate 10 (-100))) = 10%nat
    /\ (forall i, (i < 10)%nat ->
          TX.enumerate (replicate 10 (-100)) !! i = Some (Z.of_nat i, -100))
    /\ TX.medir_rssi_n TX.offline 10 TX.boot = (Ok tt, w')
    /\ TX.fs w' !! TX.path
       = Some (TX.log_text (TX.enumerate (replicate 10 (-100))))
    /\ (10%nat = 10%nat ->
        TX.medir_rssi TX.offline TX.boot = (Ok tt, w')
        /\ TX.fs w' !! TX.path = Some "0,-100
1,-100
2,-100
3,-100
4,-100
5,-100
6,-100
7,-100
8,-100
9,-100
"%string).
Proof.
  apply (sampler_sentinel TX.offline 10 TX.boot); [lia | reflexivity].
Defined.

(** C10: whatever happened before (any files, any history), one trigger
    of [n] draws leaves in the log exactly the [n] lines ["i,metric_i"] of
    the batch just sampled, [i = 0 .. n-1], because the file is opened for
    writing and so truncated, and the transmission pass does not touch it.
    When the radio accepts every frame and the readings fit a C int, the
    transmission pass that follows sends exactly the [n] frames of that
    batch. *)
Theorem log_replaced_each_cycle (E : TX.env) (n : nat) (w : TX.world) :
  (0 < n)%nat ->
  exists vals w',
    fst (TX.sample_loop E n 0 []
           (snd (TX.print "Botón presionado, midiendo RSSI..." w))) = Ok vals
    /\ length vals = n
    /\ TX.trigger_n E n w = (Ok tt, w')
    /\ TX.fs w' !! TX.path = Some (TX.log_text (TX.enumerate vals))
    /\ Py.readlines (TX.log_text (TX.enumerate vals))
       = map TX.log_line (TX.enumerate vals)
    /\ (forall i, (i < n)%nat ->
          exists v, TX.enumerate vals !! i = Some (Z.of_nat i, v))
    /\ (Z.of_nat n <= 2 ^ 31 ->
        (forall h p, TX.nrf_send E h p = None) ->
        (forall h v, TX.wifi E h = Some v -> Struct.fits_i v = true) ->
        TX.sent (TX.since w w') = map TX.frame (TX.enumerate vals)
        /\ length (TX.sent (TX.since w w')) = n).
Proof.
  intros Hn.
  set (w1 := snd (TX.print "Botón presionado, midiendo RSSI..." w)).
  destruct (medir_rssi_n_spec E n w1 Hn)
    as (vals & evs & Hs & Hlen & _ & _ & _ & Hm).
  assert (Hm' := Hm). unfold w1, TX.print, TX.emit in Hm'. simpl in Hm'.
  match type of Hm' with _ = (_, ?wm) =>
    destruct (transmitir_archivo_reports E TX.path wm)
      as (tevs & msg & Ht & _)
  end.
  assert (Htrig : exists w', TX.trigger_n E n w = (Ok tt, w')
                             /\ TX.fs w' = <[TX.path := TX.log_text (TX.enumerate vals)]> (TX.fs w)).
  { unfold TX.trigger_n. unfold TX.bind at 1. unfold TX.print at 1, TX.emit at 1.
    unfold TX.bind at 1. rewrite Hm'. unfold TX.bind at 1. fold TX.path.
    rewrite Ht. unfold TX.sleep_ms, TX.emit. cbn [TX.fs TX.trace]. eauto. }
  destruct Htrig as (w' & Htrig & Hfs).
  exists vals, w'. split; [by rewrite Hs|]. split; [exact Hlen|].
  split; [exact Htrig|]. split; [rewrite Hfs; apply lookup_insert_eq|].
  split; [apply readlines_log_text|]. split.
  { intros i Hi. unfold TX.enumerate. rewrite list_lookup_imap.
    destruct (lookup_lt_is_Some_2 vals i) as [v Hv]; [lia|].
    exists v. by rewrite Hv. }
  intros Hmax Hlink Hfit.
  destruct (trigger_n_spec E Hlink Hfit n w Hn Hmax)
    as (vals' & evs' & Hs' & _ & _ & Ht' & Hsent).
  fold w1 in Hs'. rewrite Hs in Hs'. simpl in Hs'. injection Hs' as <-.
  rewrite Htrig in Ht'. injection Ht' as ->.
  rewrite since_app. split; [exact Hsent|].
  rewrite Hsent, length_map. unfold TX.enumerate. by rewrite length_imap.
Qed.

Lemma log_replaced_each_cycle_witness :
  exists vals w',
    fst (TX.sample_loop TX.offline 2 0 []
           (snd (TX.print "Botón presionado, midiendo RSSI..." TX.boot))) = Ok vals
    /\ length vals = 2%nat
    /\ TX.trigger_n TX.offline 2 TX.boot = (Ok tt, w')
    /\ TX.fs w' !! TX.path = Some (TX.log_text (TX.enumerate vals))
    /\ Py.readlines (TX.log_text (TX.enumerate vals))
       = map TX.log_line (TX.enumerate vals)
    /\ (forall i, (i < 2)%nat ->
          exists v, TX.enumerate vals !! i = Some (Z.of_nat i, v))
    /\ (Z.of_nat 2 <= 2 ^ 31 ->
        (forall h p, TX.nrf_send TX.offline h p = None) ->
        (forall h v, TX.wifi TX.offline h = Some v -> Struct.fits_i v = true) ->
        TX.sent (TX.since TX.boot w') = map TX.frame (TX.enumerate vals)
        /\ length (TX.sent (TX.since TX.boot w')) = 2%nat).
Proof. apply (log_replaced_each_cycle TX.offline 2 TX.boot). lia. Defined.

(** C2, as the code has it: after two consecutive triggers of two draws
    each, the second transmission pass sends exactly 2 frames, those of the
    batch the second sampling pass has just written over the log; the
    frames of the first batch are not sent again. *)
Theorem second_pass_sends_latest_batch (E : TX.env) (w : TX.world) :
  (forall h p, TX.nrf_send E h p = None) ->
  (forall h v, TX.wifi E h = Some v -> Struct.fits_i v = true) ->
  exists w1 w2 vals2,
    TX.trigger_n E 2 w = (Ok tt, w1)
    /\ TX.trigger_n E 2 w1 = (Ok tt, w2)
    /\ length vals2 = 2%nat
    /\ TX.fs w2 !! TX.path = Some (TX.log_text (TX.enumerate vals2))
    /\ TX.sent (TX.since w1 w2) = map TX.frame (TX.enumerate vals2)
    /\ length (TX.sent (TX.since w1 w2)) = 2%nat.
Proof.
  intros Hlink Hfit.
  destruct (trigger_n_spec E Hlink Hfit 2 w) as (vals1 & evs1 & _ & _ & _ & Ht1 & _);
    [lia | simpl; lia |].
  match type of Ht1 with _ = (_, ?w1) =>
    destruct (trigger_n_spec E Hlink Hfit 2 w1)
      as (vals2 & evs2 & _ & Hlen2 & _ & Ht2 & Hsent2); [lia | simpl; lia |]
  end.
  eexists _, _, vals2.
  split; [exact Ht1|]. split; [exact Ht2|]. split; [exact Hlen2|].
  split; [cbn [TX.fs]; apply lookup_insert_eq|].
  rewrite since_app. split; [exact Hsent2|].
  rewrite Hsent2, length_map. unfold TX.enumerate. by rewrite length_imap.
Qed.

Lemma second_pass_sends_latest_batch_witness :
  exists w1 w2 vals2,
    TX.trigger_n TX.offline 2 TX.boot = (Ok tt, w1)
    /\ TX.trigger_n TX.offline 2 w1 = (Ok tt, w2)
    /\ length vals2 = 2%nat
    /\ TX.fs w2 !! TX.path = Some (TX.log_text (TX.enumerate vals2))
    /\ TX.sent (TX.since w1 w2) = map TX.frame (TX.enumerate vals2)
    /\ length (TX.sent (TX.since w1 w2)) = 2%nat.
Proof.
  apply (second_pass_sends_latest_batch TX.offline TX.boot);
    [reflexivity | discriminate].
Defined.

(** C2 as stated fails: with two draws per trigger, the second of two
    consecutive transmission passes sends 2 frames, not 4 (and with the 10
    draws of the source, 10 frames, not 20). *)
Lemma cumulative_replay_counterexample :
  let w1 := snd (TX.trigger_n TX.offline 2 TX.boot) in
  let w2 := snd (TX.trigger_n TX.offline 2 w1) in
  let v1 := snd (TX.trigger TX.offline TX.boot) in
  let v2 := snd (TX.trigger TX.offline v1) in
  fst (TX.trigger_n TX.offline 2 TX.boot) = Ok tt
  /\ fst (TX.trigger_n TX.offline 2 w1) = Ok tt
  /\ TX.sent (TX.since w1 w2) = [TX.frame (0, -100); TX.frame (1, -100)]
  /\ length (TX.sent (TX.since w1 w2)) <> 4%nat
  /\ length (TX.sent (TX.since v1 v2)) = 10%nat.
Proof. vm_compute. repeat split; discriminate. Qed.

(** ** Malformed lines *)




(** ** The receiver: handling and draining *)

Section RXFacts.
Import RX.
Context (oled : list event -> Z -> option string).

Lemma handle_frame_spec (buf : list byte) (w : world) :
  exists hevs,
    handle_frame oled buf w
    = {| fifo := fifo w; incoming := incoming w; trace := trace w ++ hevs |}
    /\ Forall (fun e => is_output e = true) hevs
    /\ displayed hevs
       = match decode buf with Decoded _ rssi => [rssi] | _ => [] end.
Proof.
  unfold handle_frame, decode. destruct (decide (length buf = 8%nat)) as [Hlen|Hlen].
  - destruct (Struct.unpack_ii buf) as [[msg_id rssi]|err].
    + unfold mostrar_en_oled, print, emit. cbn [fifo incoming trace].
      destruct (oled _ rssi) as [msg|]; eexists; (split; [|split]);
        try (rewrite <- !app_assoc; reflexivity);
        try (repeat constructor); reflexivity.
    + eexists [_]. split; [reflexivity|]. split; [by repeat constructor|done].
  - exists []. destruct w. simpl. by rewrite app_nil_r.
Qed.

Lemma output_not_led (evs : list event) :
  Forall (fun e => is_output e = true) evs ->
  Forall (fun e => is_led e = false) evs /\ received evs = [].
Proof.
  induction 1 as [|x evs Hx _ [IH1 IH2]]; [done|].
  destruct x; try discriminate Hx; split; (by constructor) || exact IH2.
Qed.

Lemma pending_total_step (b : list byte) (q : list (list byte))
    (inc : list (list (list byte))) :
  (length (q ++ hd [] inc) + length (concat (tl inc)))%nat
  = (length q + length (concat inc))%nat.
Proof. destruct inc as [|a inc]; simpl; rewrite !length_app; simpl; lia. Qed.

(** The inner loop runs until the radio is empty, consuming what was
    pending and what arrived meanwhile; it never touches the LED. *)
Lemma drain_spec (fuel : nat) :
  forall w : world,
    (pending_total w < fuel)%nat ->
    exists w' burst later,
      drain oled fuel w = Some w'
      /\ trace w' = trace w ++ burst ++ [Any false]
      /\ fifo w' = []
      /\ Forall (fun e => is_led e = false) burst
      /\ received burst = fifo w ++ later
      /\ displayed burst
         = omap (fun b => match decode b with Decoded _ r => Some r | _ => None end)
                (fifo w ++ later)
      /\ (concat (take (length (fifo w)) (incoming w)) = [] -> later = []).
Proof.
  induction fuel as [|fuel IH]; intros w Hfuel; [lia|].
  destruct w as [q inc tr]. unfold pending_total in Hfuel. simpl in Hfuel.
  destruct q as [|b q].
  - exists {| fifo := []; incoming := inc; trace := tr ++ [Any false] |}, [], [].
    simpl. repeat split; auto.
  - simpl drain. unfold any_, recv, emit. cbn [fifo incoming trace hd tl].
    destruct (handle_frame_spec b
                {| fifo := q; incoming := inc;
                   trace := (tr ++ [Any true]) ++ [Recv b] |})
      as (hevs & Hh & Hout & Hdisp).
    rewrite Hh. unfold sleep_ms. cbn [fifo incoming trace].
    destruct (output_not_led _ Hout) as [Hled Hrecv].
    match goal with |- context [drain oled fuel ?w4] =>
      destruct (IH w4) as (w' & burst & later & Hd & Htr & Hf & Hl & Hr & Hdi & Hlater)
    end.
    { unfold pending_total. cbn [fifo incoming].
      rewrite (pending_total_step b). simpl in Hfuel. lia. }
    cbn [fifo incoming trace] in *.
    exists w', ([Any true; Recv b] ++ hevs ++ [Sleep 50] ++ burst), (hd [] inc ++ later).
    split; [exact Hd|]. split.
    { rewrite Htr. rewrite <- !app_assoc. reflexivity. }
    split; [exact Hf|]. split.
    { repeat (apply Forall_app; split); try done; by repeat constructor. }
    split.
    { unfold received in *. rewrite !omap_app, Hrecv, Hr. simpl.
      by rewrite <- app_assoc. }
    split.
    { unfold displayed in *. rewrite !omap_app, Hdisp, Hdi, !omap_app.
      change (b :: q) with ([b] ++ q). rewrite (omap_app _ [b]).
      set (fq := omap _ q). set (fh := omap _ (hd [] inc)).
      set (fl := omap _ later).
      simpl. destruct (decode b); simpl; by rewrite <- ?app_assoc. }
    intros Hquiet. destruct inc as [|a inc]; simpl in *.
    + apply Hlater. rewrite app_nil_r. by rewrite take_nil.
    + apply app_eq_nil in Hquiet as [-> Hquiet]. simpl.
      apply Hlater. by rewrite app_nil_r.
Qed.

End RXFacts.

Lemma receiver_step_spec (oled : list RX.event -> Z -> option string)
    (w : RX.world) (fuel : nat) :
  RX.fifo w <> [] ->
  (RX.pending_total w < fuel)%nat ->
  exists w' burst later,
    RX.receiver_step oled fuel w = Some w'
    /\ RX.trace w'
       = RX.trace w ++ [RX.Any true; RX.Led true] ++ burst
           ++ [RX.Any false; RX.Led false; RX.Sleep 100]
    /\ Forall (fun e => RX.is_led e = false) burst
    /\ RX.received burst = RX.fifo w ++ later
    /\ RX.displayed burst
       = omap (fun b => match RX.decode b with
                        | RX.Decoded _ r => Some r | _ => None end)
              (RX.fifo w ++ later)
    /\ (concat (take (length (RX.fifo w)) (RX.incoming w)) = [] -> later = []).
Proof.
  intros Hne Hfuel. unfold RX.receiver_step, RX.any_.
  destruct (RX.fifo w) as [|b q] eqn:Hq; [done|].
  destruct (drain_spec oled fuel (RX.emit (RX.Led true) (RX.emit (RX.Any true) w)))
    as (w' & burst & later & Hd & Htr & Hf & Hl & Hr & Hdi & Hlater).
  { unfold RX.pending_total in *. by cbn [RX.emit RX.fifo RX.incoming]. }
  rewrite Hd. simpl. eexists _, burst, later. split; [reflexivity|].
  cbn [RX.emit RX.fifo RX.incoming RX.trace RX.sleep_ms] in *.
  rewrite Hq in *. rewrite Htr. rewrite <- !app_assoc. done.
Qed.

(** C7: in a turn of the receiver loop that finds something pending, the
    LED is switched on, payloads are read until [nrf.any()] answers false,
    and only then is the LED switched off and the loop pauses; no LED event
    occurs in between.  With three payloads pending and none arriving
    meanwhile, exactly these three are read, in order. *)
Theorem drain_to_exhaustion (oled : list RX.event -> Z -> option string)
    (w : RX.world) (fuel : nat) :
  RX.fifo w <> [] ->
  (RX.pending_total w < fuel)%nat ->
  exists w' burst later,
    RX.receiver_step oled fuel w = Some w'
    /\ RX.trace w'
       = RX.trace w ++ [RX.Any true; RX.Led true] ++ burst
           ++ [RX.Any false; RX.Led false; RX.Sleep 100]
    /\ Forall (fun e => RX.is_led e = false) burst
    /\ RX.received burst = RX.fifo w ++ later
    /\ (concat (take (length (RX.fifo w)) (RX.incoming w)) = [] -> later = [])
    /\ (forall f1 f2 f3,
          RX.fifo w = [f1; f2; f3] ->
          concat (take 3 (RX.incoming w)) = [] ->
          RX.received burst = [f1; f2; f3]
          /\ length (RX.received burst) = 3%nat).
Proof.
  intros Hne Hfuel.
  destruct (receiver_step_spec oled w fuel Hne Hfuel)
    as (w' & burst & later & Hs & Htr & Hl & Hr & _ & Hlater).
  exists w', burst, later. repeat (split; [done|]).
  intros f1 f2 f3 Hq Hquiet. rewrite Hq in *.
  rewrite Hr, (Hlater Hquiet). done.
Qed.

Lemma drain_to_exhaustion_witness :
  let w := RX.listening [TX.frame (0, -50); TX.frame (1, -55); TX.frame (2, -60)] in
  exists w' burst later,
    RX.receiver_step RX.steady 4 w = Some w'
    /\ RX.trace w'
       = RX.trace w ++ [RX.Any true; RX.Led true] ++ burst
           ++ [RX.Any false; RX.Led false; RX.Sleep 100]
    /\ Forall (fun e => RX.is_led e = false) burst
    /\ RX.received burst = RX.fifo w ++ later
    /\ (concat (take (length (RX.fifo w)) (RX.incoming w)) = [] -> later = [])
    /\ (forall f1 f2 f3,
          RX.fifo w = [f1; f2; f3] ->
          concat (take 3 (RX.incoming w)) = [] ->
          RX.received burst = [f1; f2; f3]
          /\ length (RX.received burst) = 3%nat).
Proof.
  intros w. apply (drain_to_exhaustion RX.steady w 4).
  - discriminate.
  - vm_compute. lia.
Defined.

(** C8: with the log holding the lines "0,-50" and "1,-55", the
    transmission pass sends the frame of (0, -50) and then the frame of
    (1, -55), nothing else; a receiver that finds these two frames pending
    reads them in that order and puts -50 and then -55 on the display, so
    the display ends on -55.  The radio is assumed to accept every frame. *)
Theorem end_to_end (E : TX.env) (file_path : string) (w : TX.world)
    (oled : list RX.event -> Z -> option string) (tr : list RX.event) :
  (forall h p, TX.nrf_send E h p = None) ->
  TX.fs w !! file_path = Some "0,-50
1,-55
"%string ->
  exists w' f1 f2 rw',
    Struct.pack_ii 0 (-50) = Ok f1
    /\ Struct.pack_ii 1 (-55) = Ok f2
    /\ TX.transmitir_archivo E file_path w = (Ok tt, w')
    /\ TX.sent (TX.since w w') = [f1; f2]
    /\ RX.receiver_step oled 3
         {| RX.fifo := [f1; f2]; RX.incoming := []; RX.trace := tr |} = Some rw'
    /\ RX.received (RX.trace rw') = RX.received tr ++ [f1; f2]
    /\ RX.displayed (RX.trace rw') = RX.displayed tr ++ [-50; -55]
    /\ last (RX.displayed (RX.trace rw')) = Some (-55).
Proof.
  intros Hlink Hc.
  pose proof (transmitir_archivo_ok E Hlink file_path _ w Hc) as Ht.
  destruct (receiver_step_spec oled
              {| RX.fifo := [TX.frame (0, -50); TX.frame (1, -55)];
                 RX.incoming := []; RX.trace := tr |} 3)
    as (rw' & burst & later & Hs & Htr & _ & Hr & Hd & Hlater);
    [done | vm_compute; lia |].
  cbn [RX.fifo RX.incoming RX.trace] in *.
  rewrite (Hlater eq_refl), app_nil_r in Hr, Hd.
  eexists _, _, _, rw'.
  split; [reflexivity|]. split; [reflexivity|].
  split; [apply Ht; by repeat constructor|].
  split; [by rewrite since_app|].
  split; [exact Hs|].
  assert (Hrecv : RX.received (RX.trace rw')
                  = RX.received tr ++ [TX.frame (0, -50); TX.frame (1, -55)]).
  { rewrite Htr. unfold RX.received in *. rewrite !omap_app, Hr. simpl.
    by rewrite ?app_nil_r. }
  assert (Hdisp : RX.displayed (RX.trace rw') = RX.displayed tr ++ [-50; -55]).
  { rewrite Htr. unfold RX.displayed in *. rewrite !omap_app, Hd. simpl.
    by rewrite ?app_nil_r. }
  split; [exact Hrecv|]. split; [exact Hdisp|].
  rewrite Hdisp. change [-50; -55] with ([-50] ++ [-55]).
  by rewrite app_assoc, last_snoc.
Qed.

Lemma end_to_end_witness :
  let w := {| TX.fs := {[ TX.path := "0,-50
1,-55
"%string ]}; TX.trace := [] |} in
  exists w' f1 f2 rw',
    Struct.pack_ii 0 (-50) = Ok f1
    /\ Struct.pack_ii 1 (-55) = Ok f2
    /\ TX.transmitir_archivo TX.offline TX.path w = (Ok tt, w')
    /\ TX.sent (TX.since w w') = [f1; f2]
    /\ RX.receiver_step RX.steady 3
         {| RX.fifo := [f1; f2]; RX.incoming := []; RX.trace := [] |} = Some rw'
    /\ RX.received (RX.trace rw') = RX.received [] ++ [f1; f2]
    /\ RX.displayed (RX.trace rw') = RX.displayed [] ++ [-50; -55]
    /\ last (RX.displayed (RX.trace rw')) = Some (-55).
Proof.
  intros w. apply (end_to_end TX.offline TX.path w RX.steady []); reflexivity.
Defined.

(** ** Diagnostics *)


Lemma unpack_ii_total (buf : list byte) :
  length buf = 8%nat ->
  exists msg_id rssi, Struct.unpack_ii buf = Ok (msg_id, rssi).
Proof.
  intros Hlen.
  destruct buf as [|a0 [|a1 [|a2 [|a3 [|b0 [|b1 [|b2 [|b3 [|x buf]]]]]]]]];
    try discriminate Hlen.
  simpl. eauto.
Qed.



(** * Further properties of the code *)

(** ** The codec, from the receiver's side *)

Section CodecInverse.
Import Struct.

Lemma Z_of_byte_range (b : byte) : 0 <= Z_of_byte b < 256.
Proof.
  unfold Z_of_byte. pose proof (Byte.to_N_bounded b) as H.
  apply N2Z.inj_le in H. pose proof (N2Z.is_nonneg (Byte.to_N b)) as Hn.
  change (Z.of_N 255) with 255 in H. split; [exact Hn|].
  apply Z.le_lt_trans with 255; [exact H|reflexivity].
Qed.

Lemma byte_of_Z_mod (z : Z) (b : byte) :
  z mod 2 ^ 8 = Z_of_byte b -> byte_of_Z z = b.
Proof.
  intros Hz. unfold byte_of_Z.
  change 255 with (Z.ones 8). rewrite Z.land_ones by lia. rewrite Hz.
  unfold Z_of_byte. by rewrite N2Z.id, Byte.of_to_N.
Qed.

Lemma small_testbit (x n : Z) : 0 <= x < 256 -> 8 <= n -> Z.testbit x n = false.
Proof.
  intros Hx Hn. rewrite <- (Z.mod_small x (2 ^ 8)) by (simpl; lia).
  apply Z.mod_pow2_bits_high. lia.
Qed.

Section Bytes.
Context (x0 x1 x2 x3 : Z).
Hypothesis (H0 : 0 <= x0 < 256) (H1 : 0 <= x1 < 256)
           (H2 : 0 <= x2 < 256) (H3 : 0 <= x3 < 256).

Lemma testbit_word (m : Z) :
  0 <= m ->
  Z.testbit (word x0 x1 x2 x3) m
  = if m <? 8 then Z.testbit x0 m
    else if m <? 16 then Z.testbit x1 (m - 8)
    else if m <? 24 then Z.testbit x2 (m - 16)
    else Z.testbit x3 (m - 24).
Proof.
  intros Hm. unfold word. rewrite !Z.lor_spec, !Z.shiftl_spec by lia.
  destruct (Z.ltb_spec m 8).
  { rewrite (Z.testbit_neg_r x1 (m - 8)), (Z.testbit_neg_r x2 (m - 16)),
      (Z.testbit_neg_r x3 (m - 24)) by lia.
    by rewrite !orb_false_r. }
  rewrite (small_testbit x0 m) by done.
  destruct (Z.ltb_spec m 16).
  { rewrite (Z.testbit_neg_r x2 (m - 16)), (Z.testbit_neg_r x3 (m - 24)) by lia.
    simpl. by rewrite !orb_false_r. }
  rewrite (small_testbit x1 (m - 8)) by (done || lia).
  destruct (Z.ltb_spec m 24).
  { rewrite (Z.testbit_neg_r x3 (m - 24)) by lia. simpl.
    by rewrite !orb_false_r. }
  rewrite (small_testbit x2 (m - 16)) by (done || lia). done.
Qed.

Lemma word_mod : (word x0 x1 x2 x3) mod 2 ^ 32 = (word x0 x1 x2 x3).
Proof.
  apply Z.bits_inj'. intros n Hn. destruct (Z.ltb_spec n 32).
  - by rewrite Z.mod_pow2_bits_low by lia.
  - rewrite Z.mod_pow2_bits_high by lia. rewrite testbit_word by done.
    destruct (Z.ltb_spec n 8); [lia|]. destruct (Z.ltb_spec n 16); [lia|].
    destruct (Z.ltb_spec n 24); [lia|].
    by rewrite small_testbit by (done || lia).
Qed.

Lemma word_range : 0 <= (word x0 x1 x2 x3) < 2 ^ 32.
Proof. rewrite <- word_mod. apply Z.mod_pos_bound. lia. Qed.

Lemma signed_fits : fits_i (signed x0 x1 x2 x3) = true.
Proof.
  pose proof word_range as Hw. unfold signed, fits_i, INT_MIN, INT_MAX.
  change (2 ^ 32) with 4294967296 in *. change (2 ^ 31) with 2147483648 in *.
  apply andb_true_iff.
  destruct (Z.ltb_spec (word x0 x1 x2 x3) 2147483648); split; apply Z.leb_le; lia.
Qed.

Lemma signed_mod : (signed x0 x1 x2 x3) mod 2 ^ 32 = (word x0 x1 x2 x3).
Proof.
  pose proof word_range as Hw. unfold signed.
  change (2 ^ 32) with 4294967296 in *. change (2 ^ 31) with 2147483648 in *.
  destruct (Z.ltb_spec (word x0 x1 x2 x3) 2147483648); Z.div_mod_to_equations; lia.
Qed.

Lemma testbit_signed (m : Z) :
  0 <= m < 32 -> Z.testbit (signed x0 x1 x2 x3) m = Z.testbit (word x0 x1 x2 x3) m.
Proof.
  intros Hm. rewrite <- (Z.mod_pow2_bits_low (signed x0 x1 x2 x3) 32 m) by lia.
  by rewrite signed_mod.
Qed.

Lemma signed_byte (k x : Z) :
  (k = 0 /\ x = x0) \/ (k = 8 /\ x = x1) \/ (k = 16 /\ x = x2) \/ (k = 24 /\ x = x3) ->
  Z.shiftr (signed x0 x1 x2 x3) k mod 2 ^ 8 = x.
Proof.
  intros Hk. assert (Hx : 0 <= x < 256) by (destruct Hk as [[_ ->]|[[_ ->]|[[_ ->]|[_ ->]]]]; done).
  apply Z.bits_inj'. intros n Hn. rewrite testbit_mod8.
  destruct (Z.ltb_spec n 8); simpl.
  - rewrite Z.shiftr_spec by lia. rewrite testbit_signed by lia.
    rewrite testbit_word by lia.
    destruct Hk as [[-> ->]|[[-> ->]|[[-> ->]|[-> ->]]]].
    + rewrite Z.add_0_r. by destruct (Z.ltb_spec n 8); [|lia].
    + destruct (Z.ltb_spec (n + 8) 8); [lia|].
      destruct (Z.ltb_spec (n + 8) 16); [|lia]. f_equal. lia.
    + destruct (Z.ltb_spec (n + 16) 8); [lia|].
      destruct (Z.ltb_spec (n + 16) 16); [lia|].
      destruct (Z.ltb_spec (n + 16) 24); [|lia]. f_equal. lia.
    + destruct (Z.ltb_spec (n + 24) 8); [lia|].
      destruct (Z.ltb_spec (n + 24) 16); [lia|].
      destruct (Z.ltb_spec (n + 24) 24); [lia|]. f_equal. lia.
  - symmetry. by apply small_testbit.
Qed.

End Bytes.

Lemma pack_unpack_i (b0 b1 b2 b3 : byte) :
  fits_i (unpack_i b0 b1 b2 b3) = true
  /\ pack_i (unpack_i b0 b1 b2 b3) = [b0; b1; b2; b3].
Proof.
  pose proof (Z_of_byte_range b0) as H0. pose proof (Z_of_byte_range b1) as H1.
  pose proof (Z_of_byte_range b2) as H2. pose proof (Z_of_byte_range b3) as H3.
  change (unpack_i b0 b1 b2 b3)
    with (signed (Z_of_byte b0) (Z_of_byte b1) (Z_of_byte b2) (Z_of_byte b3)).
  split; [by apply signed_fits|].
  unfold pack_i.
  rewrite <- (Z.shiftr_0_r (signed _ _ _ _)) at 1.
  repeat f_equal; apply byte_of_Z_mod; apply signed_byte; auto 10.
Qed.

End CodecInverse.

(** X1: every payload of 8 bytes unpacks to two integers that fit a C int
    and pack back to the very same 8 bytes, so packing and unpacking are
    inverse of each other in both directions: no two records share a frame
    and every frame is the frame of a record. *)
Theorem unpack_then_pack (buf : list byte) :
  length buf = 8%nat ->
  exists msg_id rssi,
    Struct.unpack_ii buf = Ok (msg_id, rssi)
    /\ Struct.fits_i msg_id = true
    /\ Struct.fits_i rssi = true
    /\ Struct.pack_ii msg_id rssi = Ok buf.
Proof.
  intros Hlen.
  destruct buf as [|a0 [|a1 [|a2 [|a3 [|b0 [|b1 [|b2 [|b3 [|x buf]]]]]]]]];
    try discriminate Hlen.
  destruct (pack_unpack_i a0 a1 a2 a3) as [Fa Pa].
  destruct (pack_unpack_i b0 b1 b2 b3) as [Fb Pb].
  eexists _, _. split; [reflexivity|]. split; [exact Fa|]. split; [exact Fb|].
  unfold Struct.pack_ii. by rewrite Fa, Fb, Pa, Pb.
Qed.

Lemma unpack_then_pack_witness :
  exists msg_id rssi,
    Struct.unpack_ii [x01; x02; x03; x04; xff; xfe; xfd; x80] = Ok (msg_id, rssi)
    /\ Struct.fits_i msg_id = true
    /\ Struct.fits_i rssi = true
    /\ Struct.pack_ii msg_id rssi = Ok [x01; x02; x03; x04; xff; xfe; xfd; x80].
Proof.
  apply (unpack_then_pack [x01; x02; x03; x04; xff; xfe; xfd; x80]). reflexivity.
Defined.

(** ** The log file, written and read back *)

(** X2: the log written for any batch of records is read back by the
    transmission pass as exactly these records, line by line and in order:
    writing [f"{i},{val}\n"] and then splitting, stripping and parsing with
    [int] is a round trip, also for negative values. *)
Theorem log_round_trip (records : list (Z * Z)) :
  map TX.classify (Py.readlines (TX.log_text records))
  = map (fun iv => TX.Record (fst iv) (snd iv)) records.
Proof.
  rewrite readlines_log_text, map_map. apply map_ext.
  intros [i v]. apply classify_log_line.
Qed.

Section Whitespace.
Import Py.

Lemma lstrip_spaces (t : string) :
  all_chars is_space t = true -> lstrip t = EmptyString.
Proof.
  induction t as [|c t IH]; [done|]. simpl.
  intros [-> Ht]%andb_true_iff. by apply IH.
Qed.

Lemma lstrip_app_spaces (s t : string) :
  all_chars is_space t = true ->
  lstrip (s +:+ t) = lstrip s \/ lstrip (s +:+ t) = lstrip s +:+ t.
Proof.
  intros Ht. induction s as [|c s IH].
  - left. rewrite append_nil_l. by rewrite lstrip_spaces.
  - rewrite append_cons. simpl. destruct (is_space c); [exact IH|].
    right. by rewrite append_cons.
Qed.

Lemma strip_app_spaces (s t : string) :
  all_chars is_space t = true -> strip (s +:+ t) = strip s.
Proof.
  intros Ht. unfold strip.
  destruct (lstrip_app_spaces s t Ht) as [->| ->]; [done|].
  by apply rstrip_app_spaces.
Qed.

End Whitespace.

(** X3: white space at the end of a line (a newline, a carriage return and
    newline, blanks) does not change what the transmission pass makes of
    the line, and a line of white space only, such as an empty line, is
    ignored: the pass does nothing at all for it, not even a warning. *)
Theorem trailing_space_ignored (line t : string) :
  Py.all_chars Py.is_space t = true ->
  TX.classify (line +:+ t) = TX.classify line
  /\ TX.classify t = TX.Ignored
  /\ (forall E w, TX.transmitir_linea E t w = (Ok tt, w)).
Proof.
  intros Ht.
  assert (Hblank : TX.classify t = TX.Ignored).
  { unfold TX.classify.
    rewrite <- (append_nil_l t), strip_app_spaces by done. reflexivity. }
  split; [|split; [exact Hblank|]].
  - unfold TX.classify. by rewrite strip_app_spaces.
  - intros E w. by rewrite transmitir_linea_classify, Hblank.
Qed.

Lemma trailing_space_ignored_witness :
  TX.classify ("3,-70" +:+ " 
") = TX.classify "3,-70"
  /\ TX.classify " 
" = TX.Ignored
  /\ (forall E w, TX.transmitir_linea E " 
" w = (Ok tt, w)).
Proof. apply (trailing_space_ignored "3,-70" " 
"). reflexivity. Defined.

(** ** The transmission pass and the radio *)

Section PassFacts.
Import TX TXMain.
Context (E : env).

Lemma transmitir_linea_attempts (line : string) (w : world) :
  exists r evs,
    transmitir_linea E line w = (r, {| fs := fs w; trace := trace w ++ evs |})
    /\ (attempted evs = []
        \/ exists p, attempted evs = [p] /\ length p = 8%nat).
Proof.
  rewrite transmitir_linea_classify. destruct (classify line) as [| |idx rssi].
  - exists (Ok tt), []. destruct w. simpl. rewrite app_nil_r. auto.
  - eexists (Ok tt), [_]. split; [reflexivity|]. by left.
  - unfold bind, lift, Struct.pack_ii, send, print, sleep_ms, emit.
    destruct (Struct.fits_i idx && Struct.fits_i rssi).
    + cbn [fs trace]. destruct (nrf_send E (trace w) _) as [m|].
      * eexists (Raise _), [_]. split; [reflexivity|]. right.
        eexists. split; [reflexivity|]. reflexivity.
      * exists (Ok tt),
          [Send (Struct.pack_i idx ++ Struct.pack_i rssi) None;
           Print ("Enviado RSSI: " +:+ Py.str rssi +:+ " dBm"); Sleep 100].
        split; [cbn [fs trace]; by rewrite <- !app_assoc|].
        right. eexists. split; [reflexivity|]. reflexivity.
    + eexists (Raise _), []. destruct w. simpl. rewrite app_nil_r. auto.
Qed.

Lemma transmit_lines_attempts (lines : list string) :
  forall w : world,
  exists r evs,
    for_each lines (transmitir_linea E) w
    = (r, {| fs := fs w; trace := trace w ++ evs |})
    /\ Forall (fun p : list byte => length p = 8%nat) (attempted evs)
    /\ (length (attempted evs) <= length lines)%nat.
Proof.
  induction lines as [|l lines IH]; intros w.
  - exists (Ok tt), []. destruct w. simpl. unfold ret. rewrite app_nil_r.
    repeat split; [constructor | lia].
  - simpl. unfold bind.
    destruct (transmitir_linea_attempts l w) as (r1 & evs1 & -> & H1).
    assert (H1' : Forall (fun p : list byte => length p = 8%nat) (attempted evs1)
                  /\ (length (attempted evs1) <= 1)%nat).
    { destruct H1 as [->|(p & -> & Hp)]; split; simpl; auto. }
    destruct H1' as [Hs1 Hc1].
    destruct r1 as [[]|e1].
    + destruct (IH {| fs := fs w; trace := trace w ++ evs1 |})
        as (r2 & evs2 & -> & Hs2 & Hc2).
      cbn [fs trace]. exists r2, (evs1 ++ evs2). rewrite <- app_assoc.
      split; [done|]. unfold attempted in *. rewrite omap_app.
      split; [by apply Forall_app|]. rewrite length_app. lia.
    + exists (Raise e1), evs1. split; [done|]. split; [done|]. lia.
Qed.

End PassFacts.

(** X4: whatever the log holds and however the radio answers, a
    transmission pass gives at most one payload per line to the radio, each
    payload has exactly the 8 bytes both radios are configured for, and the
    pass leaves every file as it was. *)
Theorem pass_payloads_sized (E : TX.env) (file_path c : string) (w : TX.world) :
  TX.fs w !! file_path = Some c ->
  exists w',
    TX.transmitir_archivo E file_path w = (Ok tt, w')
    /\ TX.fs w' = TX.fs w
    /\ Forall (fun p : list byte => Z.of_nat (length p) = Link.PAYLOAD_SIZE)
              (TXMain.attempted (TX.since w w'))
    /\ (length (TXMain.attempted (TX.since w w')) <= length (Py.readlines c))%nat.
Proof.
  intros Hc. unfold TX.transmitir_archivo, TX.try_except, TX.bind, TX.open_r_lines.
  rewrite Hc.
  destruct (transmit_lines_attempts E (Py.readlines c) w) as (r & evs & -> & Hs & Hn).
  assert (Hs' : Forall (fun p : list byte => Z.of_nat (length p) = Link.PAYLOAD_SIZE)
                       (TXMain.attempted evs)).
  { eapply Forall_impl; [exact Hs|]. intros p Hp. by rewrite Hp. }
  destruct r as [[]|e]; unfold TX.print, TX.emit; cbn [TX.fs TX.trace];
    rewrite <- app_assoc; eexists; (split; [reflexivity|]); cbn [TX.fs];
    (split; [reflexivity|]); rewrite since_app;
    unfold TXMain.attempted in *; rewrite omap_app; simpl; rewrite app_nil_r;
    by split.
Qed.

Lemma pass_payloads_sized_witness :
  let w := {| TX.fs := {[ TX.path := "0,-50
oops
1,-55
"%string ]}; TX.trace := [] |} in
  exists w',
    TX.transmitir_archivo TX.offline TX.path w = (Ok tt, w')
    /\ TX.fs w' = TX.fs w
    /\ Forall (fun p : list byte => Z.of_nat (length p) = Link.PAYLOAD_SIZE)
              (TXMain.attempted (TX.since w w'))
    /\ (length (TXMain.attempted (TX.since w w'))
        <= length (Py.readlines "0,-50
oops
1,-55
"))%nat.
Proof.
  intros w. apply (pass_payloads_sized TX.offline TX.path _ w). reflexivity.
Defined.

(** X5: a frame the radio refuses ends the pass on the spot: the refused
    frame is the last thing given to the radio, no frame before it was
    refused, the lines after it are not transmitted, and the pass closes
    with ["Error al transmitir archivo: <msg>"] instead of raising. *)
Theorem refusal_stops_pass (E : TX.env) (file_path : string) (w : TX.world) :
  exists evs msg,
    TX.transmitir_archivo E file_path w
    = (Ok tt, {| TX.fs := TX.fs w;
                 TX.trace := TX.trace w ++ evs ++ [TX.Print msg] |})
    /\ (forall pre p m post,
          evs = pre ++ TX.Send p (Some m) :: post ->
          post = []
          /\ Forall (fun x => TX.faulty x = false) pre
          /\ msg = "Error al transmitir archivo: " +:+ m).
Proof.
  unfold TX.transmitir_archivo, TX.try_except, TX.bind, TX.open_r_lines.
  assert (Hclean : forall evs0 pre p m post,
             Forall (fun x => TX.faulty x = false) evs0 ->
             evs0 = pre ++ TX.Send p (Some m) :: post -> False).
  { intros evs0 pre p m post H0 ->. apply Forall_app in H0 as [_ H0].
    apply Forall_cons in H0 as [H0 _]. discriminate H0. }
  destruct (TX.fs w !! file_path) as [c|].
  - destruct (transmit_lines_cases E (Py.readlines c) w) as (r & evs & -> & Hr).
    destruct r as [[]|e]; unfold TX.print, TX.emit; cbn [TX.fs TX.trace];
      rewrite <- app_assoc; eexists evs, _; (split; [reflexivity|]);
      intros pre p m post Hsplit.
    + by destruct (Hclean _ _ _ _ _ Hr Hsplit).
    + destruct Hr as (evs0 & H0 & [[-> _]|(p' & m' & -> & ->)]).
      * by destruct (Hclean _ _ _ _ _ H0 Hsplit).
      * destruct post as [|x post _] using rev_ind.
        -- apply app_inj_tail in Hsplit as [<- [= <- <-]]. done.
        -- change (pre ++ TX.Send p (Some m) :: post ++ [x])
             with (pre ++ (TX.Send p (Some m) :: post) ++ [x]) in Hsplit.
           rewrite app_assoc in Hsplit.
           apply app_inj_tail in Hsplit as [Hsplit _].
           by destruct (Hclean _ _ _ _ _ H0 Hsplit).
  - eexists [], _. unfold TX.print, TX.emit. cbn [TX.fs TX.trace]. simpl.
    split; [reflexivity|]. intros pre p m post Hsplit.
    by destruct pre.
Qed.

Example refusal_example :
  let w := {| TX.fs := {[ TX.path := "0,-50
1,-55
2,-60
"%string ]}; TX.trace := [] |} in
  TX.trace (snd (TX.transmitir_archivo TXMain.flaky TX.path w))
  = [TX.Send (TX.frame (0, -50)) None;
     TX.Print "Enviado RSSI: -50 dBm";
     TX.Sleep 100;
     TX.Send (TX.frame (1, -55)) (Some "send failed"%string);
     TX.Print "Error al transmitir archivo: send failed"].
Proof. reflexivity. Qed.

(** ** Sampling *)

Section SamplingFacts.
Import TX TXMain.
Context (E : env).

Lemma sample_loop_queries (k : nat) :
  forall (i : Z) (acc : list Z) (w : world),
  exists vals evs,
    sample_loop E k i acc w
    = (Ok (acc ++ vals), {| fs := fs w; trace := trace w ++ evs |})
    /\ vals = map (default (-100)) (rssi_queries evs)
    /\ attempted evs = []
    /\ pauses evs = replicate k 100.
Proof.
  induction k as [|k IH]; intros i acc w.
  - exists [], []. destruct w as [m tr]. simpl. unfold ret.
    by rewrite !app_nil_r.
  - simpl. unfold bind at 1. unfold read_rssi.
    unfold bind at 1. unfold print at 1, emit at 1. cbn [fs trace].
    unfold bind at 1. unfold sleep_ms at 1, emit at 1. cbn [fs trace].
    set (r := wifi E (trace w)).
    match goal with |- context [sample_loop E k ?i' ?acc' ?w'] =>
      destruct (IH i' acc' w') as (vals & evs & Heq & Hv & Ha & Hp);
      rewrite Heq end.
    cbn [fs trace].
    eexists (default (-100) r :: vals), (Rssi r :: _ :: Sleep 100 :: evs).
    split; [|split; [|split]].
    + rewrite <- !app_assoc. simpl. reflexivity.
    + simpl. by rewrite Hv.
    + simpl. exact Ha.
    + simpl. by rewrite Hp.
Qed.

End SamplingFacts.

(** X6: [medir_rssi] never fails and never touches the radio.  It asks the
    WiFi interface exactly ten times, pausing 100 ms after each answer, and
    the ten readings it logs are these answers in order, with -100 in place
    of each answer given while not connected; only the log file changes. *)
Theorem medir_rssi_readings (E : TX.env) (w : TX.world) :
  exists vals evs,
    TX.medir_rssi E w
    = (Ok tt, {| TX.fs := <[TX.path := TX.log_text (TX.enumerate vals)]> (TX.fs w);
                 TX.trace := TX.trace w ++ evs |})
    /\ length (TXMain.rssi_queries evs) = 10%nat
    /\ vals = map (default (-100)) (TXMain.rssi_queries evs)
    /\ TXMain.attempted evs = []
    /\ TXMain.pauses evs = replicate 10 100.
Proof.
  destruct (medir_rssi_n_spec E 10 w) as (vals & evs & Hs & Hlen & _ & _ & _ & Hm);
    [lia|].
  destruct (sample_loop_queries E 10 0 [] w) as (vals' & evs' & Hs' & Hv & Ha & Hp).
  rewrite Hs in Hs'. simpl in Hs'. injection Hs' as Hvals Hevs.
  apply app_inv_head in Hevs. subst vals' evs'.
  eexists vals, _. split; [exact Hm|].
  unfold TXMain.rssi_queries, TXMain.attempted, TXMain.pauses in *.
  rewrite !omap_app. simpl. rewrite !app_nil_r.
  split; [|by repeat split].
  rewrite <- Hlen, Hv. by rewrite length_map.
Qed.

Example medir_rssi_late_example :
  fst (TX.medir_rssi TXMain.late TX.boot) = Ok tt
  /\ TX.fs (snd (TX.medir_rssi TXMain.late TX.boot)) !! TX.path = Some "0,-100
1,-100
2,-61
3,-61
4,-61
5,-61
6,-61
7,-61
8,-61
9,-61
"%string.
Proof. split; vm_compute; reflexivity. Qed.

(** ** Start-up: the WiFi connection *)

Section ConnectFacts.
Import TX TXMain.
Context (E : env) (ip : string).

Lemma pauses_attempts (j : nat) (i : Z) :
  pauses (attempts j i) = replicate j 1000.
Proof.
  revert i. induction j as [|j IH]; intros i; [done|].
  simpl. unfold pauses in *. simpl. by rewrite IH.
Qed.

Lemma connect_loop_spec (k : nat) :
  forall (i : Z) (w : world),
  exists j,
    (j <= k)%nat
    /\ (forall j', (j' < j)%nat -> wifi E (trace w ++ attempts j' i) = None)
    /\ (((j < k)%nat
         /\ is_Some (wifi E (trace w ++ attempts j i))
         /\ connect_loop E ip k i w
            = (Ok true,
               {| fs := fs w;
                  trace := trace w ++ attempts j i
                             ++ [Print "✅ Conectado a WiFi"; Print ("IP: " +:+ ip)] |}))
        \/ (j = k
            /\ connect_loop E ip k i w
               = (Ok false, {| fs := fs w; trace := trace w ++ attempts j i |}))).
Proof.
  induction k as [|k IH]; intros i w.
  - exists 0%nat. split; [lia|]. split; [intros j' Hj'; lia|]. right.
    split; [done|]. destruct w. simpl. unfold ret. by rewrite app_nil_r.
  - simpl connect_loop. destruct (wifi E (trace w)) as [v|] eqn:Hw.
    + exists 0%nat. split; [lia|]. split; [intros j' Hj'; lia|]. left.
      split; [lia|]. simpl. rewrite app_nil_r. split; [by rewrite Hw|].
      unfold bind, print, emit, ret. cbn [fs trace]. by rewrite <- app_assoc.
    + set (msg := ("Intento " +:+ Py.str (i + 1)
                   +:+ "/10: esperando conexión...")%string).
      set (w' := {| fs := fs w;
                    trace := (trace w ++ [Print msg]) ++ [Sleep 1000] |}).
      assert (Hrun : (print msg ;;; sleep_ms 1000 ;;; connect_loop E ip k (i + 1)) w
                     = connect_loop E ip k (i + 1) w') by reflexivity.
      destruct (IH (i + 1) w') as (j & Hj & Hnone & Hcase).
      cbn [fs trace w'] in *.
      assert (Hshift : forall n,
                 ((trace w ++ [Print msg]) ++ [Sleep 1000]) ++ attempts n (i + 1)
                 = trace w ++ attempts (S n) i).
      { intros n. simpl. by rewrite <- !app_assoc. }
      exists (S j). split; [lia|]. split.
      { intros [|j'] Hj'; [simpl; by rewrite app_nil_r|].
        rewrite <- Hshift. apply Hnone. lia. }
      rewrite !Hrun.
      destruct Hcase as [(Hlt & Hsome & ->)|(-> & ->)].
      * left. split; [lia|]. rewrite <- Hshift. split; [exact Hsome|].
        do 2 f_equal. simpl. by rewrite <- !app_assoc.
      * right. split; [done|]. by rewrite Hshift.
Qed.

End ConnectFacts.

(** X7: the connection loop at start-up polls the WiFi interface at most
    20 times, pausing one second after each poll that finds no connection.
    It stops at the first poll that finds the interface connected, printing
    the success lines; after 20 polls without connection it prints the
    failure line (which, like the attempt lines, speaks of 10).  It never
    fails and touches no file. *)
Theorem wifi_connect_attempts (E : TX.env) (ip : string) (w : TX.world) :
  let tr0 := TX.trace w ++ [TX.Print "Conectando a WiFi..."] in
  exists j,
    (j <= 20)%nat
    /\ TXMain.pauses (TXMain.attempts j 0) = replicate j 1000
    /\ (forall j', (j' < j)%nat -> TX.wifi E (tr0 ++ TXMain.attempts j' 0) = None)
    /\ (((j < 20)%nat
         /\ is_Some (TX.wifi E (tr0 ++ TXMain.attempts j 0))
         /\ TXMain.wifi_connect E ip w
            = (Ok tt,
               {| TX.fs := TX.fs w;
                  TX.trace := tr0 ++ TXMain.attempts j 0
                    ++ [TX.Print "✅ Conectado a WiFi";
                        TX.Print ("IP: " +:+ ip)] |}))
        \/ (j = 20%nat
            /\ TXMain.wifi_connect E ip w
               = (Ok tt,
                  {| TX.fs := TX.fs w;
                     TX.trace := tr0 ++ TXMain.attempts 20 0
                       ++ [TX.Print "❌ No se pudo conectar a WiFi después de 10 segundos."] |}))).
Proof.
  intros tr0.
  destruct (connect_loop_spec E ip 20 0
              {| TX.fs := TX.fs w; TX.trace := tr0 |})
    as (j & Hj & Hnone & Hcase).
  cbn [TX.fs TX.trace] in *.
  exists j. split; [exact Hj|]. split; [apply pauses_attempts|].
  split; [exact Hnone|].
  assert (Hrun : TXMain.wifi_connect E ip w
                 = match TXMain.connect_loop E ip 20 0
                           {| TX.fs := TX.fs w; TX.trace := tr0 |} with
                   | (Ok true, w') => (Ok tt, w')
                   | (Ok false, w') =>
                       TX.print "❌ No se pudo conectar a WiFi después de 10 segundos." w'
                   | (Raise e, w') => (Raise e, w')
                   end).
  { unfold TXMain.wifi_connect, TX.bind, TX.print, TX.emit, TX.ret.
    cbn [TX.fs TX.trace]. fold tr0.
    by destruct (TXMain.connect_loop E ip 20 0 _) as [[[|]|e] w']. }
  rewrite !Hrun.
  destruct Hcase as [(Hlt & Hsome & ->)|(-> & ->)].
  - left. by repeat split.
  - right. split; [done|]. unfold TX.print, TX.emit. cbn [TX.fs TX.trace].
    by rewrite <- app_assoc.
Qed.

Example wifi_connect_late_example :
  TX.trace (snd (TXMain.wifi_connect TXMain.late "192.168.1.7" TX.boot))
  = [TX.Print "Conectando a WiFi...";
     TX.Print "Intento 1/10: esperando conexión..."; TX.Sleep 1000;
     TX.Print "Intento 2/10: esperando conexión..."; TX.Sleep 1000;
     TX.Print "✅ Conectado a WiFi"; TX.Print "IP: 192.168.1.7"]
  /\ length (TXMain.pauses
               (TX.trace (snd (TXMain.wifi_connect TX.offline "" TX.boot)))) = 20%nat.
Proof. split; vm_compute; reflexivity. Qed.

(** ** The main loop of the transmitter *)

Section MainFacts.
Import TX TXMain.
Context (E : env).

Lemma trigger_n_total (n : nat) (w : world) :
  (0 < n)%nat ->
  exists vals evs,
    length vals = n
    /\ trigger_n E n w
       = (Ok tt, {| fs := <[path := log_text (enumerate vals)]> (fs w);
                    trace := trace w ++ evs |}).
Proof.
  intros Hn.
  destruct (medir_rssi_n_spec E n
              {| fs := fs w;
                 trace := trace w ++ [Print "Botón presionado, midiendo RSSI..."] |} Hn)
    as (vals & evs & _ & Hlen & _ & _ & _ & Hm).
  cbn [fs trace] in Hm.
  match type of Hm with _ = (_, ?wm) =>
    destruct (transmitir_archivo_reports E path wm) as (tevs & msg & Ht & _)
  end.
  exists vals. eexists. split; [exact Hlen|].
  unfold trigger_n. unfold bind at 1. unfold print at 1, emit at 1.
  unfold bind at 1. rewrite Hm. unfold bind at 1. fold path. rewrite Ht.
  unfold sleep_ms, emit. cbn [fs trace]. rewrite <- !app_assoc. reflexivity.
Qed.

Lemma presses_cons (v : Z) (boton : list Z) :
  presses (v :: boton) = if decide (v = 0) then S (presses boton) else presses boton.
Proof. unfold presses. rewrite filter_cons. by destruct (decide (v = 0)). Qed.

Lemma main_loop_spec (boton : list Z) :
  forall w : world,
  exists m evs,
    for_each boton (loop_body E) w = (Ok tt, {| fs := m; trace := trace w ++ evs |})
    /\ (presses boton = 0%nat -> evs = [] /\ m = fs w)
    /\ ((0 < presses boton)%nat ->
        exists vals, length vals = 10%nat
                     /\ m !! path = Some (log_text (enumerate vals)))
    /\ ((forall h p, nrf_send E h p = None) ->
        (forall h v, wifi E h = Some v -> Struct.fits_i v = true) ->
        length (sent evs) = (10 * presses boton)%nat).
Proof.
  induction boton as [|v boton IH]; intros w.
  - exists (fs w), []. destruct w. simpl. unfold ret. rewrite app_nil_r.
    repeat split; auto. unfold presses. simpl. lia.
  - simpl for_each. unfold bind. unfold loop_body at 1. rewrite presses_cons.
    destruct (decide (v = 0)) as [Hv|Hv].
    + destruct (trigger_n_total 10 w) as (vals & evs1 & Hlen & Ht); [lia|].
      unfold trigger. rewrite Ht.
      destruct (IH {| fs := <[path := log_text (enumerate vals)]> (fs w);
                      trace := trace w ++ evs1 |})
        as (m & evs2 & -> & Hidle & Hlog & Hcount).
      cbn [fs trace] in *. exists m, (evs1 ++ evs2). rewrite <- app_assoc.
      split; [done|]. split; [lia|]. split.
      * intros _. destruct (presses boton) as [|k] eqn:Hk.
        -- destruct Hidle as [_ ->]; [done|]. exists vals. split; [done|].
           apply lookup_insert_eq.
        -- apply Hlog. lia.
      * intros Hlink Hfit.
        destruct (trigger_n_spec E Hlink Hfit 10 w)
          as (vals' & evs1' & _ & Hlen' & _ & Ht' & Hsent); [lia | simpl; lia |].
        unfold trigger in *. rewrite Ht in Ht'. injection Ht' as _ Hevs.
        apply app_inv_head in Hevs. subst evs1'.
        unfold sent in *. rewrite omap_app, length_app, (Hcount Hlink Hfit), Hsent.
        rewrite length_map. unfold enumerate. rewrite length_imap. lia.
    + unfold ret at 1.
      destruct (IH w) as (m & evs & -> & Hidle & Hlog & Hcount).
      by exists m, evs.
Qed.

End MainFacts.

(** X8: [main] never raises.  When the radio cannot be set up it prints
    the error and ends without sampling or sending.  Otherwise readings of
    the button other than "pressed" leave no trace at all, and each
    "pressed" reading runs one full cycle: after any press the log holds a
    batch of ten records, and when the radio accepts every frame and the
    readings fit a C int the frames sent number ten per press. *)
Theorem main_presses (E : TX.env) (fault : option string) (boton : list Z)
    (w : TX.world) :
  exists w',
    TXMain.main E fault boton w = (Ok tt, w')
    /\ (forall msg, fault = Some msg ->
          w' = {| TX.fs := TX.fs w;
                  TX.trace := TX.trace w
                    ++ [TX.Print "
--- Transmisor NRF24L01 listo ---";
                        TX.Print ("Error al configurar NRF24L01: " +:+ msg)] |})
    /\ (fault = None -> TXMain.presses boton = 0%nat ->
          w' = {| TX.fs := TX.fs w;
                  TX.trace := TX.trace w
                    ++ [TX.Print "
--- Transmisor NRF24L01 listo ---";
                        TX.Print "NRF24L01 configurado en canal 46"] |})
    /\ (fault = None -> (0 < TXMain.presses boton)%nat ->
          exists vals, length vals = 10%nat
            /\ TX.fs w' !! TX.path = Some (TX.log_text (TX.enumerate vals)))
    /\ (fault = None ->
        (forall h p, TX.nrf_send E h p = None) ->
        (forall h v, TX.wifi E h = Some v -> Struct.fits_i v = true) ->
        length (TX.sent (TX.since w w')) = (10 * TXMain.presses boton)%nat).
Proof.
  unfold TXMain.main, TXMain.setup_nrf24l01.
  unfold TX.bind at 1. unfold TX.print at 1, TX.emit at 1.
  destruct fault as [msg|].
  - eexists. split; [reflexivity|]. cbn [TX.fs TX.trace].
    split; [|by repeat split].
    intros msg' [= <-]. by rewrite <- app_assoc.
  - unfold TX.bind, TX.try_except, TX.print, TX.emit, TX.ret. cbn [TX.fs TX.trace].
    match goal with |- context [TX.for_each boton _ ?w0] =>
      destruct (main_loop_spec E boton w0) as (m & evs & -> & Hidle & Hlog & Hcount)
    end.
    cbn [TX.fs TX.trace] in *. eexists. split; [reflexivity|].
    split; [done|]. split.
    { intros _ Hp. destruct (Hidle Hp) as [-> ->].
      by rewrite app_nil_r, <- app_assoc. }
    split; [intros _; exact Hlog|].
    intros _ Hlink Hfit. rewrite <- !app_assoc. rewrite since_app.
    unfold TX.sent in *. rewrite !omap_app. simpl.
    by apply Hcount.
Qed.

Example main_example :
  let w' := snd (TXMain.main TX.offline None [1; 0; 1; 1; 0] TX.boot) in
  length (TX.sent (TX.trace w')) = 20%nat
  /\ TXMain.pauses (TX.trace (snd (TXMain.main TX.offline None [1; 1; 1] TX.boot))) = []
  /\ TX.trace (snd (TXMain.main TX.offline (Some "no radio"%string) [0; 0] TX.boot))
     = [TX.Print "
--- Transmisor NRF24L01 listo ---";
        TX.Print "Error al configurar NRF24L01: no radio"].
Proof. repeat split; vm_compute; reflexivity. Qed.

(** ** The receiver loop over many turns *)

Section LoopFacts.
Import RX RXTrace.
Context (oled : list event -> Z -> option string).

Lemma guarded_weaken (armed : bool) (tr : list event) :
  guarded false tr = true -> guarded armed tr = true.
Proof.
  destruct tr as [|e tr]; [done|]. simpl.
  intros [He Htr]%andb_true_iff. rewrite Htr.
  by destruct e, armed.
Qed.

Lemma guarded_app (armed : bool) (a b : list event) :
  guarded armed a = true -> guarded false b = true ->
  guarded armed (a ++ b) = true.
Proof.
  revert armed. induction a as [|e a IH]; intros armed Ha Hb.
  - by apply guarded_weaken.
  - simpl in *. apply andb_true_iff in Ha as [He Ha].
    rewrite He. simpl. by apply IH.
Qed.

Lemma outputs_quiet (evs : list event) :
  Forall (fun e => is_output e = true) evs ->
  led_events evs = [] /\ received evs = [] /\ guarded false evs = true.
Proof.
  induction 1 as [|x evs Hx _ (IH1 & IH2 & IH3)]; [done|].
  destruct x; try discriminate Hx; repeat split; simpl; auto.
Qed.

Lemma hd_tl_concat (inc : list (list (list byte))) :
  hd [] inc ++ concat (tl inc) = concat inc.
Proof. by destruct inc. Qed.

Lemma drain_inv (fuel : nat) :
  forall w : world,
    (pending_total w < fuel)%nat ->
    exists w' evs,
      drain oled fuel w = Some w'
      /\ trace w' = trace w ++ evs
      /\ fifo w' = []
      /\ led_events evs = []
      /\ guarded false evs = true
      /\ received evs ++ concat (incoming w') = fifo w ++ concat (incoming w)
      /\ displayed evs = omap rssi_of (received evs).
Proof.
  induction fuel as [|fuel IH]; intros w Hfuel; [lia|].
  destruct w as [q inc tr]. unfold pending_total in Hfuel. simpl in Hfuel.
  destruct q as [|b q].
  - exists {| fifo := []; incoming := inc; trace := tr ++ [Any false] |}, [Any false].
    simpl. repeat split; auto.
  - simpl drain. unfold any_, recv, emit. cbn [fifo incoming trace hd tl].
    destruct (handle_frame_spec oled b
                {| fifo := q; incoming := inc;
                   trace := (tr ++ [Any true]) ++ [Recv b] |})
      as (hevs & Hh & Hout & Hdisp).
    rewrite Hh. unfold sleep_ms. cbn [fifo incoming trace].
    destruct (outputs_quiet _ Hout) as (Hled & Hrecv & Hguard).
    match goal with |- context [drain oled fuel ?w4] =>
      destruct (IH w4) as (w' & evs & Hd & Htr & Hf & Hl & Hg & Hc & Hdi)
    end.
    { unfold pending_total. cbn [fifo incoming].
      rewrite (pending_total_step b). simpl in Hfuel. lia. }
    cbn [fifo incoming trace] in *.
    exists w', ([Any true; Recv b] ++ hevs ++ [Sleep 50] ++ evs).
    split; [exact Hd|]. split.
    { rewrite Htr. by rewrite <- !app_assoc. }
    split; [exact Hf|]. split.
    { unfold led_events in *. rewrite !omap_app, Hled, Hl. done. }
    split.
    { change ([Any true; Recv b] ++ hevs ++ [Sleep 50] ++ evs)
        with (Any true :: Recv b :: (hevs ++ Sleep 50 :: evs)).
      simpl. apply guarded_app; [exact Hguard|]. simpl. exact Hg. }
    split.
    { unfold received in *. rewrite !omap_app, Hrecv. simpl.
      rewrite Hc. rewrite <- app_assoc. by rewrite hd_tl_concat. }
    unfold displayed, received in *. rewrite !omap_app, Hdisp, Hdi, Hrecv.
    simpl. unfold rssi_of at 2. by destruct (decode b).
Qed.

Lemma step_inv (fuel : nat) (w : world) :
  (pending_total w < fuel)%nat ->
  exists w' evs,
    receiver_step oled fuel w = Some w'
    /\ trace w' = trace w ++ evs
    /\ (led_events evs = [] \/ led_events evs = [true; false])
    /\ guarded false evs = true
    /\ received evs ++ fifo w' ++ concat (incoming w')
       = fifo w ++ concat (incoming w)
    /\ displayed evs = omap rssi_of (received evs).
Proof.
  intros Hfuel. unfold receiver_step, any_.
  destruct (fifo w) as [|b q] eqn:Hq.
  - eexists _, [Any false; Sleep 100]. split; [reflexivity|].
    unfold sleep_ms, emit. cbn [fifo incoming trace]. rewrite Hq.
    split; [by rewrite <- app_assoc|]. split; [by left|]. split; [done|].
    split; [|done]. simpl. apply hd_tl_concat.
  - destruct (drain_inv fuel (emit (Led true) (emit (Any true) w)))
      as (w2 & evs & Hd & Htr & Hf & Hl & Hg & Hc & Hdi).
    { unfold pending_total in *. by cbn [emit fifo incoming]. }
    rewrite Hd. simpl.
    exists (sleep_ms 100 (emit (Led false) w2)),
           ([Any true; Led true] ++ evs ++ [Led false; Sleep 100]).
    split; [reflexivity|].
    cbn [emit fifo incoming trace sleep_ms] in *. rewrite Hq in Hc.
    split; [rewrite Htr; by rewrite <- !app_assoc|].
    split.
    { right. unfold led_events in *. rewrite !omap_app, Hl. done. }
    split.
    { change ([Any true; Led true] ++ evs ++ [Led false; Sleep 100])
        with (Any true :: Led true :: (evs ++ [Led false; Sleep 100])).
      simpl. by apply guarded_app. }
    split.
    { unfold received in *. rewrite !omap_app. simpl. rewrite app_nil_r.
      rewrite Hf. simpl. by rewrite hd_tl_concat. }
    unfold displayed, received in *. rewrite !omap_app. simpl.
    by rewrite !app_nil_r.
Qed.

Lemma conserved_length (w w' : world) (rd : list (list byte)) :
  rd ++ fifo w' ++ concat (incoming w') = fifo w ++ concat (incoming w) ->
  (pending_total w' <= pending_total w)%nat.
Proof.
  intros H. apply (f_equal length) in H. rewrite !length_app in H.
  unfold pending_total. lia.
Qed.

Lemma turns_inv (turns fuel : nat) :
  forall w : world,
    (pending_total w < fuel)%nat ->
    exists w' evs k,
      receiver_turns oled turns fuel w = Some w'
      /\ trace w' = trace w ++ evs
      /\ (k <= turns)%nat
      /\ led_events evs = concat (replicate k [true; false])
      /\ guarded false evs = true
      /\ received evs ++ fifo w' ++ concat (incoming w')
         = fifo w ++ concat (incoming w)
      /\ displayed evs = omap rssi_of (received evs).
Proof.
  induction turns as [|turns IH]; intros w Hfuel.
  - exists w, [], 0%nat. simpl. rewrite app_nil_r. repeat split; auto.
  - simpl receiver_turns.
    destruct (step_inv fuel w Hfuel) as (w1 & evs1 & -> & Htr1 & Hl1 & Hg1 & Hc1 & Hd1).
    simpl.
    destruct (IH w1) as (w2 & evs2 & k & -> & Htr2 & Hk & Hl2 & Hg2 & Hc2 & Hd2).
    { pose proof (conserved_length _ _ _ Hc1). lia. }
    exists w2, (evs1 ++ evs2), (if led_events evs1 is [] then k else S k).
    split; [done|]. split; [rewrite Htr2, Htr1; by rewrite <- app_assoc|].
    split; [destruct Hl1 as [-> | ->]; lia|]. split.
    { unfold led_events in *. rewrite omap_app, Hl2.
      by destruct Hl1 as [-> | ->]. }
    split; [by apply guarded_app|]. split.
    { unfold received in *. rewrite omap_app, <- app_assoc. by rewrite Hc2. }
    unfold displayed, received in *. by rewrite !omap_app, Hd1, Hd2.
Qed.

End LoopFacts.

(** X9: over any number of turns of [receiver_loop], whatever arrives and
    whatever the display does, the LED is switched on and off alternately,
    starting with on and ending with off, at most once per turn; and
    [nrf.recv()] is only ever called right after an [nrf.any()] that
    answered true, as the driver requires. *)
Theorem led_and_recv_discipline
    (oled : list RX.event -> Z -> option string) (turns fuel : nat) (w : RX.world) :
  (RX.pending_total w < fuel)%nat ->
  exists w' evs k,
    RX.receiver_loop oled turns fuel w = Some w'
    /\ RX.trace w' = RX.trace w ++ RX.Print "
Escuchando transmisiones..." :: evs
    /\ (k <= turns)%nat
    /\ RXTrace.led_events evs = concat (replicate k [true; false])
    /\ RXTrace.guarded false evs = true.
Proof.
  intros Hfuel. unfold RX.receiver_loop.
  destruct (turns_inv oled turns fuel
              (RX.print "
Escuchando transmisiones..." w))
    as (w' & evs & k & Hr & Htr & Hk & Hl & Hg & _); [exact Hfuel|].
  exists w', evs, k. split; [exact Hr|]. split; [|done].
  rewrite Htr. unfold RX.print, RX.emit. cbn [RX.trace].
  by rewrite <- app_assoc.
Qed.

Lemma led_and_recv_discipline_witness :
  let w := {| RX.fifo := [TX.frame (0, -50)];
              RX.incoming := [[]; [TX.frame (1, -55); [x00]]; []; [TX.frame (2, -60)]];
              RX.trace := [] |} in
  exists w' evs k,
    RX.receiver_loop RX.steady 3 5 w = Some w'
    /\ RX.trace w' = RX.trace w ++ RX.Print "
Escuchando transmisiones..." :: evs
    /\ (k <= 3)%nat
    /\ RXTrace.led_events evs = concat (replicate k [true; false])
    /\ RXTrace.guarded false evs = true.
Proof.
  intros w. apply (led_and_recv_discipline RX.steady 3 5 w). vm_compute. lia.
Defined.

(** X10: with fuel above the number of payloads still to come, any number
    of turns of [receiver_loop] returns, and no payload is lost, duplicated
    or reordered: the payloads read so far, followed by those waiting in
    the radio and those still to arrive, are exactly the payloads that were
    waiting or to arrive at the start, in the same order. *)
Theorem payloads_conserved
    (oled : list RX.event -> Z -> option string) (turns fuel : nat) (w : RX.world) :
  (RX.pending_total w < fuel)%nat ->
  exists w',
    RX.receiver_loop oled turns fuel w = Some w'
    /\ RX.received (RX.trace w') ++ RX.fifo w' ++ concat (RX.incoming w')
       = RX.received (RX.trace w) ++ RX.fifo w ++ concat (RX.incoming w).
Proof.
  intros Hfuel. unfold RX.receiver_loop.
  destruct (turns_inv oled turns fuel
              (RX.print "
Escuchando transmisiones..." w))
    as (w' & evs & k & Hr & Htr & _ & _ & _ & Hc & _); [exact Hfuel|].
  exists w'. split; [exact Hr|].
  rewrite Htr. unfold RX.print, RX.emit in *. cbn [RX.trace RX.fifo RX.incoming] in *.
  unfold RX.received in *. rewrite !omap_app. simpl. rewrite app_nil_r.
  by rewrite <- app_assoc, Hc.
Qed.

Lemma payloads_conserved_witness :
  let w := {| RX.fifo := [TX.frame (0, -50)];
              RX.incoming := [[]; [TX.frame (1, -55); [x00]]; []; [TX.frame (2, -60)]];
              RX.trace := [] |} in
  exists w',
    RX.receiver_loop RX.steady 3 5 w = Some w'
    /\ RX.received (RX.trace w') ++ RX.fifo w' ++ concat (RX.incoming w')
       = RX.received (RX.trace w) ++ RX.fifo w ++ concat (RX.incoming w).
Proof.
  intros w. apply (payloads_conserved RX.steady 3 5 w). vm_compute. lia.
Defined.

(** X11: the values put on the display are exactly the metrics of the
    payloads of 8 bytes that were read, in the order they were read, one
    display call per such payload: a payload of another size is dropped
    and a display call that raises is reported, and neither stops the loop
    or changes what is done with the payloads after it. *)
Theorem display_follows_payloads
    (oled : list RX.event -> Z -> option string) (turns fuel : nat) (w : RX.world) :
  (RX.pending_total w < fuel)%nat ->
  exists w' evs,
    RX.receiver_loop oled turns fuel w = Some w'
    /\ RX.trace w' = RX.trace w ++ RX.Print "
Escuchando transmisiones..." :: evs
    /\ RX.displayed evs = omap RXTrace.rssi_of (RX.received evs)
    /\ (forall b, length b = 8%nat -> is_Some (RXTrace.rssi_of b))
    /\ (forall b, length b <> 8%nat -> RXTrace.rssi_of b = None).
Proof.
  intros Hfuel. unfold RX.receiver_loop.
  destruct (turns_inv oled turns fuel
              (RX.print "
Escuchando transmisiones..." w))
    as (w' & evs & k & Hr & Htr & _ & _ & _ & _ & Hd); [exact Hfuel|].
  exists w', evs. split; [exact Hr|]. split.
  { rewrite Htr. unfold RX.print, RX.emit. cbn [RX.trace]. by rewrite <- app_assoc. }
  split; [exact Hd|]. split.
  - intros b Hb. unfold RXTrace.rssi_of, RX.decode. rewrite decide_True by done.
    destruct (unpack_ii_total b Hb) as (i & r & ->). eauto.
  - intros b Hb. unfold RXTrace.rssi_of, RX.decode. by rewrite decide_False.
Qed.

Lemma display_follows_payloads_witness :
  let w := {| RX.fifo := [TX.frame (0, -50)];
              RX.incoming := [[]; [TX.frame (1, -55); [x00]]; []; [TX.frame (2, -60)]];
              RX.trace := [] |} in
  let faulty_display : list RX.event -> Z -> option string :=
    fun _ r => if decide (r = -55) then Some "EIO"%string else None in
  exists w' evs,
    RX.receiver_loop faulty_display 3 5 w = Some w'
    /\ RX.trace w' = RX.trace w ++ RX.Print "
Escuchando transmisiones..." :: evs
    /\ RX.displayed evs = omap RXTrace.rssi_of (RX.received evs)
    /\ (forall b, length b = 8%nat -> is_Some (RXTrace.rssi_of b))
    /\ (forall b, length b <> 8%nat -> RXTrace.rssi_of b = None).
Proof.
  intros w faulty_display.
  apply (display_follows_payloads faulty_display 3 5 w). vm_compute. lia.
Defined.

Example receiver_loop_example :
  let w := {| RX.fifo := [TX.frame (0, -50)];
              RX.incoming := [[]; [TX.frame (1, -55); [x00]]; []; [TX.frame (2, -60)]];
              RX.trace := [] |} in
  let faulty_display : list RX.event -> Z -> option string :=
    fun _ r => if decide (r = -55) then Some "EIO"%string else None in
  (RX.trace <$> RX.receiver_loop faulty_display 2 5 w)
  = Some [RX.Print "
Escuchando transmisiones...";
          RX.Any true; RX.Led true;
          RX.Any true; RX.Recv (TX.frame (0, -50));
          RX.Print "Recibido RSSI: -50 dBm"; RX.Oled (-50) None; RX.Sleep 50;
          RX.Any false; RX.Led false; RX.Sleep 100;
          RX.Any true; RX.Led true;
          RX.Any true; RX.Recv (TX.frame (1, -55));
          RX.Print "Recibido RSSI: -55 dBm"; RX.Oled (-55) (Some "EIO"%string);
          RX.Print "Error de decodificación: EIO"; RX.Sleep 50;
          RX.Any true; RX.Recv [x00]; RX.Sleep 50;
          RX.Any true; RX.Recv (TX.frame (2, -60));
          RX.Print "Recibido RSSI: -60 dBm"; RX.Oled (-60) None; RX.Sleep 50;
          RX.Any false; RX.Led false; RX.Sleep 100].
Proof. vm_compute. reflexivity. Qed.

(** ** From the log of the transmitter to the display of the receiver *)






(** ** The radio configuration *)

(** X13: the two [setup_nrf24l01] agree on everything that decides whether
    the radios hear each other: same channel (within 0..125), same payload
    size, same write to the RF set-up register; the receiver listens, on
    pipe 1, on the very address the transmitter sends to, which is not the
    receiver's own sending address; all addresses have 5 bytes; and the
    payload size configured is the length of the frame of every record. *)
Theorem endpoints_agree :
  Link.air_settings Link.tx_setup = Link.air_settings Link.rx_setup
  /\ Link.rx_pipes Link.rx_setup
     = map (fun a => (1, a)) (Link.tx_pipes Link.tx_setup)
  /\ Link.rx_pipes Link.tx_setup = []
  /\ Link.tx_pipes Link.rx_setup <> Link.tx_pipes Link.tx_setup
  /\ Forall (fun a : list byte => length a = 5%nat)
            (Link.tx_pipes Link.tx_setup ++ Link.tx_pipes Link.rx_setup)
  /\ 0 <= Link.CANAL_RF <= 125
  /\ (forall iv,
        Link.Nrf (Z.of_nat (length (TX.frame iv))) ∈ Link.tx_setup
        /\ Link.Nrf (Z.of_nat (length (TX.frame iv))) ∈ Link.rx_setup).
Proof.
  split; [reflexivity|]. split; [reflexivity|]. split; [reflexivity|].
  split; [discriminate|]. split; [by repeat constructor|].
  split; [unfold Link.CANAL_RF; lia|].
  intros iv. split; set_solver.
Qed.
